(** * owncloudcmd: the one-shot synchronisation driver of [src/cmd/cmd.cpp]

    A shallow embedding of [parseOptions], [selectiveSyncFixup] and [main],
    and the properties of credential precedence, exclude-list policy,
    selective-sync reconciliation, proxy set-up and the bounded restart loop.

    Conventions.
    - A [QString] is a [string]; its characters stand for the [QChar]s of
      code point below 256.  The one place where the source tells a null
      [QString] from an empty one ([options.proxy.isNull()]) uses
      [option string], [None] being the null string.
    - A C++ [int] is a [Z]; the only arithmetic is [restartCount++], which
      stays below [restartTimes], and the one narrowing conversion, of the
      proxy port to a [quint16], is written out.
    - A [QSet<QString>] is a [gset string].
    - Collaborators whose code lives outside [cmd.cpp] (file system, netrc
      parser, journal, csync, engine, QUrl) are fields of an environment
      record, or small models introduced where they are needed. *)

From Stdlib Require Import ZArith Ascii String.
From stdpp Require Import base gmap strings list.

Local Open Scope Z_scope.

(** ** QString operations used by the driver *)

Module QString.

Definition isEmpty (s : string) : bool :=
  match s with "" => true | String _ _ => false end.

(** [s.startsWith(p)] *)
Fixpoint startsWith (s p : string) : bool :=
  match p with
  | "" => true
  | String b p' =>
      match s with
      | "" => false
      | String a s' => Ascii.eqb a b && startsWith s' p'
      end
  end.

(** [s.endsWith(p)] *)
Definition endsWith (s p : string) : bool :=
  startsWith (String.rev s) (String.rev p).

(** [s.contains(p)]: [p] occurs somewhere in [s]. *)
Fixpoint contains (s p : string) : bool :=
  startsWith s p ||
  match s with
  | "" => false
  | String _ s' => contains s' p
  end.

(** [s.append(t)] *)
Definition append (s t : string) : string := s +:+ t.

(** [s.remove(0, n)]: drop the first [n] characters. *)
Fixpoint remove0 (n : nat) (s : string) : string :=
  match n with
  | O => s
  | S n' => match s with "" => "" | String _ s' => remove0 n' s' end
  end.

(** [s.replace(0, n, t)]: the first [n] characters give way to [t]. *)
Definition replace0 (n : nat) (t s : string) : string := t +:+ remove0 n s.

(** [s.split(sep)] with the default [KeepEmptyParts]: the empty string
    splits into one empty part. *)
Fixpoint split (sep : ascii) (s : string) : list string :=
  match s with
  | "" => [""]
  | String a s' =>
      if Ascii.eqb a sep then "" :: split sep s'
      else match split sep s' with
           | h :: t => String a h :: t
           | [] => [String a ""]
           end
  end.

(** [QChar::isSpace] on the code points below 256. *)
Definition isSpace (a : ascii) : bool :=
  let n := N_of_ascii a in
  ((n =? 32) || ((9 <=? n) && (n <=? 13)) || (n =? 133) || (n =? 160))%N.

(** Drop leading white space; [trimmed] drops it at both ends. *)
Fixpoint skipSpace (s : string) : string :=
  match s with
  | "" => ""
  | String a s' => if isSpace a then skipSpace s' else s
  end.

Definition trimmed (s : string) : string :=
  String.rev (skipSpace (String.rev (skipSpace s))).

Definition digit (a : ascii) : option Z :=
  let n := N_of_ascii a in
  if ((48 <=? n) && (n <=? 57))%N then Some (Z.of_N n - 48) else None.

(** Value of a string of decimal digits, [None] at the first other character. *)
Fixpoint digits (acc : Z) (s : string) : option Z :=
  match s with
  | "" => Some acc
  | String a s' =>
      match digit a with
      | Some d => digits (10 * acc + d) s'
      | None => None
      end
  end.

Definition INT_MIN : Z := - 2 ^ 31.
Definition INT_MAX : Z := 2 ^ 31 - 1.

(** [s.toInt()] in base 10: white space around, an optional sign, decimal
    digits; [0] when the text is not a number or does not fit an [int]. *)
Definition toInt (s : string) : Z :=
  let t := trimmed s in
  let '(neg, body) :=
    match t with
    | String "-" r => (true, r)
    | String "+" r => (false, r)
    | _ => (false, t)
    end in
  if isEmpty body then 0
  else match digits 0 body with
       | Some v =>
           let v' := if neg then - v else v in
           if (INT_MIN <=? v') && (v' <=? INT_MAX) then v' else 0
       | None => 0
       end.

End QString.

(** ** The journal collaborator *)

(** Modelled from the spec: [SyncJournalDb] and [SqlDatabase]
    ([syncjournaldb.h] is included by [cmd.cpp], its code is elsewhere).  The
    spec gives the interface [exists() -> bool],
    [getSelectiveSyncList(kind) -> set<string>],
    [setSelectiveSyncList(kind, set<string>)] and
    [avoidReadFromDbOnNextSync(path)].  The state keeps what these four
    calls can tell apart, for the one list kind the driver uses
    ([SelectiveSyncBlackList]). *)
Record SyncJournalDb := {
  db_exists : bool;              (* journal->exists() *)
  db_openable : bool;            (* SqlDatabase::openOrCreateReadWrite(databaseFilePath()) *)
  blacklist : list string;       (* the persisted SelectiveSyncBlackList *)
  avoid_read : list string;      (* paths given to avoidReadFromDbOnNextSync, in call order *)
}.

Definition getSelectiveSyncList (j : SyncJournalDb) : list string := blacklist j.

Definition setSelectiveSyncList (j : SyncJournalDb) (l : list string) : SyncJournalDb :=
  {| db_exists := db_exists j; db_openable := db_openable j;
     blacklist := l; avoid_read := avoid_read j |}.

Definition avoidReadFromDbOnNextSync (j : SyncJournalDb) (path : string) : SyncJournalDb :=
  {| db_exists := db_exists j; db_openable := db_openable j;
     blacklist := blacklist j; avoid_read := avoid_read j ++ [path] |}.

(** ** [selectiveSyncFixup] (cmd.cpp, lines 250-269) *)

(** [QList::toSet] *)
Definition toSet (l : list string) : gset string := list_to_set l.

(** [(oldBlackListSet - blackListSet) + (blackListSet - oldBlackListSet)] *)
Definition changes (oldBlackListSet blackListSet : gset string) : gset string :=
  (oldBlackListSet ∖ blackListSet) ∪ (blackListSet ∖ oldBlackListSet).

Definition selectiveSyncFixup (journal : SyncJournalDb) (newList : list string)
  : SyncJournalDb :=
  if negb (db_exists journal) then journal
  else if negb (db_openable journal) then journal
  else
    let oldBlackListSet := toSet (getSelectiveSyncList journal) in
    let blackListSet := toSet newList in
    let journal' :=
      foldl avoidReadFromDbOnNextSync journal
            (elements (changes oldBlackListSet blackListSet)) in
    setSelectiveSyncList journal' newList.

(** ** Reading the selective-sync list (cmd.cpp, lines 439-454) *)

(** Length of the longest run of non-space characters at the head of [s]:
    what a greedy [\S+] consumes there. *)
Fixpoint nonSpaceRun (s : string) : nat :=
  match s with
  | "" => O
  | String a s' => if QString.isSpace a then O else S (nonSpaceRun s')
  end.

(** [QRegExp("\\S+").indexIn(s)]: first position with a non-empty match. *)
Fixpoint indexIn_S_plus (s : string) : option nat :=
  match s with
  | "" => None
  | String _ s' =>
      if (0 <? nonSpaceRun s)%nat then Some O else S <$> indexIn_S_plus s'
  end.

(** [QRegExp("^[^#]").indexIn(s)]: the caret pins the match to position 0,
    the class wants one character there other than the hash sign. *)
Definition indexIn_caret_not_hash (s : string) : option nat :=
  match s with
  | "" => None
  | String a _ => if Ascii.eqb a "#" then None else Some O
  end.

(** [QStringList::filter(rx)] keeps the strings that contain a match. *)
Definition filterRx (indexIn : string → option nat) (l : list string) : list string :=
  List.filter (λ s, bool_decide (is_Some (indexIn s))) l.

(** The loop of lines 448-452 over the indices [i, i + n) of the list. *)
Fixpoint appendSlashLoop (n i : nat) (l : list string) : list string :=
  match n with
  | O => l
  | S n' =>
      let l' :=
        match l !! i with
        | Some s =>
            if negb (QString.endsWith s "/") then <[i := QString.append s "/"]> l
            else l
        | None => l
        end in
      appendSlashLoop n' (S i) l'
  end.

(** The list built from the content of a file that could be opened. *)
Definition selectiveSyncListOfContent (content : string) : list string :=
  let l := filterRx indexIn_caret_not_hash
             (filterRx indexIn_S_plus (QString.split "010" content)) in
  appendSlashLoop (length l) 0 l.

(** The same list in the words of the specification: drop the lines that are
    empty or all white space and those that begin with a hash sign, then
    give every remaining line a trailing slash unless it has one. *)
Definition isBlankLine (s : string) : bool :=
  forallb QString.isSpace (list_ascii_of_string s).

Definition beginsWithHash (s : string) : bool :=
  match s with String "#" _ => true | _ => false end.

Definition withTrailingSlash (s : string) : string :=
  if QString.endsWith s "/" then s else s +:+ "/".

Definition specExclusionList (content : string) : list string :=
  withTrailingSlash <$>
    List.filter (λ s, negb (isBlankLine s) && negb (beginsWithHash s))
                (QString.split "010" content).

(** ** Command-line options (cmd.cpp, lines 47-64 and 177-245) *)

Record CmdOptions := {
  source_dir : string;
  target_url : string;
  config_directory : string;
  user : string;
  password : string;
  proxy : option string;
  silent : bool;
  trustSSL : bool;
  useNetrc : bool;
  interactive : bool;
  ignoreHiddenFiles : bool;
  nonShib : bool;
  exclude : string;
  unsyncedfolders : string;
  davPath : string;
  restartTimes : Z;
}.

(** The options as [main] sets them up before parsing (lines 277-284): the
    strings are default-constructed, the flags and the count are assigned. *)
Definition initialOptions : CmdOptions :=
  {| source_dir := ""; target_url := ""; config_directory := "";
     user := ""; password := ""; proxy := None;
     silent := false; trustSSL := false; useNetrc := false;
     interactive := true; ignoreHiddenFiles := true; nonShib := false;
     exclude := ""; unsyncedfolders := ""; davPath := "";
     restartTimes := 3 |}.

Definition set_source_dir (v : _) (o : CmdOptions) : CmdOptions :=
  {| source_dir := v; target_url := target_url o; config_directory := config_directory o;
     user := user o; password := password o; proxy := proxy o; silent := silent o;
     trustSSL := trustSSL o; useNetrc := useNetrc o; interactive := interactive o;
     ignoreHiddenFiles := ignoreHiddenFiles o; nonShib := nonShib o; exclude := exclude o;
     unsyncedfolders := unsyncedfolders o; davPath := davPath o; restartTimes := restartTimes o |}.
Definition set_target_url (v : _) (o : CmdOptions) : CmdOptions :=
  {| source_dir := source_dir o; target_url := v; config_directory := config_directory o;
     user := user o; password := password o; proxy := proxy o; silent := silent o;
     trustSSL := trustSSL o; useNetrc := useNetrc o; interactive := interactive o;
     ignoreHiddenFiles := ignoreHiddenFiles o; nonShib := nonShib o; exclude := exclude o;
     unsyncedfolders := unsyncedfolders o; davPath := davPath o; restartTimes := restartTimes o |}.
Definition set_user (v : _) (o : CmdOptions) : CmdOptions :=
  {| source_dir := source_dir o; target_url := target_url o; config_directory := config_directory o;
     user := v; password := password o; proxy := proxy o; silent := silent o;
     trustSSL := trustSSL o; useNetrc := useNetrc o; interactive := interactive o;
     ignoreHiddenFiles := ignoreHiddenFiles o; nonShib := nonShib o; exclude := exclude o;
     unsyncedfolders := unsyncedfolders o; davPath := davPath o; restartTimes := restartTimes o |}.
Definition set_password (v : _) (o : CmdOptions) : CmdOptions :=
  {| source_dir := source_dir o; target_url := target_url o; config_directory := config_directory o;
     user := user o; password := v; proxy := proxy o; silent := silent o;
     trustSSL := trustSSL o; useNetrc := useNetrc o; interactive := interactive o;
     ignoreHiddenFiles := ignoreHiddenFiles o; nonShib := nonShib o; exclude := exclude o;
     unsyncedfolders := unsyncedfolders o; davPath := davPath o; restartTimes := restartTimes o |}.
Definition set_proxy (v : _) (o : CmdOptions) : CmdOptions :=
  {| source_dir := source_dir o; target_url := target_url o; config_directory := config_directory o;
     user := user o; password := password o; proxy := v; silent := silent o;
     trustSSL := trustSSL o; useNetrc := useNetrc o; interactive := interactive o;
     ignoreHiddenFiles := ignoreHiddenFiles o; nonShib := nonShib o; exclude := exclude o;
     unsyncedfolders := unsyncedfolders o; davPath := davPath o; restartTimes := restartTimes o |}.
Definition set_silent (v : _) (o : CmdOptions) : CmdOptions :=
  {| source_dir := source_dir o; target_url := target_url o; config_directory := config_directory o;
     user := user o; password := password o; proxy := proxy o; silent := v;
     trustSSL := trustSSL o; useNetrc := useNetrc o; interactive := interactive o;
     ignoreHiddenFiles := ignoreHiddenFiles o; nonShib := nonShib o; exclude := exclude o;
     unsyncedfolders := unsyncedfolders o; davPath := davPath o; restartTimes := restartTimes o |}.
Definition set_trustSSL (v : _) (o : CmdOptions) : CmdOptions :=
  {| source_dir := source_dir o; target_url := target_url o; config_directory := config_directory o;
     user := user o; password := password o; proxy := proxy o; silent := silent o;
     trustSSL := v; useNetrc := useNetrc o; interactive := interactive o;
     ignoreHiddenFiles := ignoreHiddenFiles o; nonShib := nonShib o; exclude := exclude o;
     unsyncedfolders := unsyncedfolders o; davPath := davPath o; restartTimes := restartTimes o |}.
Definition set_useNetrc (v : _) (o : CmdOptions) : CmdOptions :=
  {| source_dir := source_dir o; target_url := target_url o; config_directory := config_directory o;
     user := user o; password := password o; proxy := proxy o; silent := silent o;
     trustSSL := trustSSL o; useNetrc := v; interactive := interactive o;
     ignoreHiddenFiles := ignoreHiddenFiles o; nonShib := nonShib o; exclude := exclude o;
     unsyncedfolders := unsyncedfolders o; davPath := davPath o; restartTimes := restartTimes o |}.
Definition set_interactive (v : _) (o : CmdOptions) : CmdOptions :=
  {| source_dir := source_dir o; target_url := target_url o; config_directory := config_directory o;
     user := user o; password := password o; proxy := proxy o; silent := silent o;
     trustSSL := trustSSL o; useNetrc := useNetrc o; interactive := v;
     ignoreHiddenFiles := ignoreHiddenFiles o; nonShib := nonShib o; exclude := exclude o;
     unsyncedfolders := unsyncedfolders o; davPath := davPath o; restartTimes := restartTimes o |}.
Definition set_ignoreHiddenFiles (v : _) (o : CmdOptions) : CmdOptions :=
  {| source_dir := source_dir o; target_url := target_url o; config_directory := config_directory o;
     user := user o; password := password o; proxy := proxy o; silent := silent o;
     trustSSL := trustSSL o; useNetrc := useNetrc o; interactive := interactive o;
     ignoreHiddenFiles := v; nonShib := nonShib o; exclude := exclude o;
     unsyncedfolders := unsyncedfolders o; davPath := davPath o; restartTimes := restartTimes o |}.
Definition set_nonShib (v : _) (o : CmdOptions) : CmdOptions :=
  {| source_dir := source_dir o; target_url := target_url o; config_directory := config_directory o;
     user := user o; password := password o; proxy := proxy o; silent := silent o;
     trustSSL := trustSSL o; useNetrc := useNetrc o; interactive := interactive o;
     ignoreHiddenFiles := ignoreHiddenFiles o; nonShib := v; exclude := exclude o;
     unsyncedfolders := unsyncedfolders o; davPath := davPath o; restartTimes := restartTimes o |}.
Definition set_exclude (v : _) (o : CmdOptions) : CmdOptions :=
  {| source_dir := source_dir o; target_url := target_url o; config_directory := config_directory o;
     user := user o; password := password o; proxy := proxy o; silent := silent o;
     trustSSL := trustSSL o; useNetrc := useNetrc o; interactive := interactive o;
     ignoreHiddenFiles := ignoreHiddenFiles o; nonShib := nonShib o; exclude := v;
     unsyncedfolders := unsyncedfolders o; davPath := davPath o; restartTimes := restartTimes o |}.
Definition set_unsyncedfolders (v : _) (o : CmdOptions) : CmdOptions :=
  {| source_dir := source_dir o; target_url := target_url o; config_directory := config_directory o;
     user := user o; password := password o; proxy := proxy o; silent := silent o;
     trustSSL := trustSSL o; useNetrc := useNetrc o; interactive := interactive o;
     ignoreHiddenFiles := ignoreHiddenFiles o; nonShib := nonShib o; exclude := exclude o;
     unsyncedfolders := v; davPath := davPath o; restartTimes := restartTimes o |}.
Definition set_davPath (v : _) (o : CmdOptions) : CmdOptions :=
  {| source_dir := source_dir o; target_url := target_url o; config_directory := config_directory o;
     user := user o; password := password o; proxy := proxy o; silent := silent o;
     trustSSL := trustSSL o; useNetrc := useNetrc o; interactive := interactive o;
     ignoreHiddenFiles := ignoreHiddenFiles o; nonShib := nonShib o; exclude := exclude o;
     unsyncedfolders := unsyncedfolders o; davPath := v; restartTimes := restartTimes o |}.
Definition set_restartTimes (v : _) (o : CmdOptions) : CmdOptions :=
  {| source_dir := source_dir o; target_url := target_url o; config_directory := config_directory o;
     user := user o; password := password o; proxy := proxy o; silent := silent o;
     trustSSL := trustSSL o; useNetrc := useNetrc o; interactive := interactive o;
     ignoreHiddenFiles := ignoreHiddenFiles o; nonShib := nonShib o; exclude := exclude o;
     unsyncedfolders := unsyncedfolders o; davPath := davPath o; restartTimes := v |}.

(** How [parseOptions] ends: it fills the options and returns, or leaves the
    process through [help()] ([exit(0)]), [showVersion()] ([exit(0)]) or the
    missing source directory ([exit(1)]).  [peekNext()] on an iterator at the
    end of the list has no defined result; the model stops there. *)
Inductive ParseResult :=
| Parsed (options : CmdOptions)
| ExitHelp
| ExitVersion
| ExitNoSourceDir (dir : string)
| PeekPastEnd.

(** The condition [option == name && !it.peekNext().startsWith("-")] with its
    short circuit: [peekNext] is only evaluated when the name matches. *)
Definition takesValue (nameMatches : bool) (rest : list string) : option bool :=
  if nameMatches then
    match rest with
    | [] => None
    | next :: _ => Some (negb (QString.startsWith next "-"))
    end
  else Some false.

(** The [while (it.hasNext())] loop of lines 208-240; [args] is what the
    iterator has not visited yet. *)
Fixpoint parseLoop (args : list string) (options : CmdOptions) : ParseResult :=
  match args with
  | [] => Parsed options
  | option :: rest =>
    let isOpt name := String.eqb option name in
    let value (set : string → CmdOptions → CmdOptions) : ParseResult :=
      match rest with
      | next :: rest' => parseLoop rest' (set next options)
      | [] => PeekPastEnd
      end in
    match takesValue (isOpt "--httpproxy") rest with
    | None => PeekPastEnd
    | Some true => value (λ v, set_proxy (Some v))
    | Some false =>
    if isOpt "-s" || isOpt "--silent" then parseLoop rest (set_silent true options)
    else if isOpt "--trust" then parseLoop rest (set_trustSSL true options)
    else if isOpt "-n" then parseLoop rest (set_useNetrc true options)
    else if isOpt "-h" then parseLoop rest (set_ignoreHiddenFiles false options)
    else if isOpt "--non-interactive" then parseLoop rest (set_interactive false options)
    else
    match takesValue (isOpt "-u" || isOpt "--user") rest with
    | None => PeekPastEnd
    | Some true => value set_user
    | Some false =>
    match takesValue (isOpt "-p" || isOpt "--password") rest with
    | None => PeekPastEnd
    | Some true => value set_password
    | Some false =>
    match takesValue (isOpt "--exclude") rest with
    | None => PeekPastEnd
    | Some true => value set_exclude
    | Some false =>
    match takesValue (isOpt "--unsyncedfolders") rest with
    | None => PeekPastEnd
    | Some true => value set_unsyncedfolders
    | Some false =>
    if isOpt "--nonshib" then parseLoop rest (set_nonShib true options)
    else
    match takesValue (isOpt "--davpath") rest with
    | None => PeekPastEnd
    | Some true => value set_davPath
    | Some false =>
    match takesValue (isOpt "--max-sync-retries") rest with
    | None => PeekPastEnd
    | Some true => value (λ v, set_restartTimes (QString.toInt v))
    | Some false => ExitHelp
    end end end end end end
    end
  end.

(** [parseOptions(app_args, options)]; [fileExists] is [QFile::exists]. *)
Definition parseOptions (fileExists : string → bool)
    (app_args : list string) (options : CmdOptions) : ParseResult :=
  let argCount := Z.of_nat (length app_args) in
  if argCount <? 3 then
    if (2 <=? argCount) &&
       (let option := nth 1 app_args "" in
        String.eqb option "-v" || String.eqb option "--version")
    then ExitVersion
    else ExitHelp
  else
    match rev app_args with
    | last :: last2 :: revArgs =>
        let args := rev revArgs in
        let options := set_target_url last options in
        let options := set_source_dir last2 options in
        let options :=
          if negb (QString.endsWith (source_dir options) "/")
          then set_source_dir (QString.append (source_dir options) "/") options
          else options in
        if negb (fileExists (source_dir options))
        then ExitNoSourceDir (source_dir options)
        else
          (* skip file name *)
          let args := match args with [] => [] | _ :: args' => args' end in
          match parseLoop args options with
          | Parsed options =>
              if QString.isEmpty (target_url options)
                 || QString.isEmpty (source_dir options)
              then ExitHelp
              else Parsed options
          | r => r
          end
    | _ => ExitHelp
    end.


(** ** Collaborators of [main] *)

Definition LoginPair : Type := string * string.

(** Modelled from the spec: [NetrcParser] ([netrcparser.h] is included by
    [cmd.cpp], its code is elsewhere).  The spec gives [parse() -> bool] and
    [find(host) -> (user, password)]: [find] is total, so a host without an
    entry of its own still yields a pair, here [netrc_default] (the empty
    pair for a file that provides nothing else). *)
Record NetrcParser := {
  netrc_parse : bool;
  netrc_entries : list (string * LoginPair);
  netrc_default : LoginPair;
}.

Fixpoint netrc_lookup (entries : list (string * LoginPair)) (host : string)
  : option LoginPair :=
  match entries with
  | [] => None
  | (machine, login) :: entries' =>
      if String.eqb machine host then Some login else netrc_lookup entries' host
  end.

Definition netrc_find (n : NetrcParser) (host : string) : LoginPair :=
  match netrc_lookup (netrc_entries n) host with
  | Some login => login
  | None => netrc_default n
  end.

(** The account after [setNonShib] and [setDavPath] (lines 300-306). *)
Record Account := {
  acc_nonShib : bool;
  acc_davPath : string;
}.

(** Everything [main] asks of the outside.  What depends on the moment of
    the call is indexed by the value of [restartCount] at that moment. *)
Record Env := {
  env_fileExists : string → bool;                    (* QFile::exists *)
  env_readFile : Z → string → option string;         (* QFile::open(ReadOnly), readAll, fromUtf8 *)
  env_accountCreated : bool;                         (* Account::create() is not null *)
  env_davPath : Account → string;                    (* account->davPath() *)
  env_urlUserName : string → string;                 (* QUrl::fromUserInput(s).userName() *)
  env_urlPassword : string → string;                 (* QUrl::fromUserInput(s).password() *)
  env_urlHost : string → string;                     (* QUrl::fromUserInput(s).host() *)
  env_netrc : NetrcParser;
  env_stdin : list string;                           (* lines waiting on standard input *)
  env_excludeFileFromSystem : string;                (* ConfigFile::excludeFileFromSystem() *)
  env_csync_add_exclude_list : Z → string → Z;       (* return code: 0 when the list is loaded *)
  env_engine : Z → SyncJournalDb → SyncJournalDb * bool;
      (* one engine pass: the journal it leaves, and isAnotherSyncNeeded() *)
  env_journal : SyncJournalDb;                       (* the journal on disk at start *)
}.

(** What the driver does to its collaborators, in order. *)
Inductive Event :=
| EvPromptUser
| EvQueryPassword (user : string)
| EvCredentials (user password : string) (sslTrusted : bool)
| EvCsyncCreate (source_dir remUrl : string)
| EvLogLevel (level : Z)
| EvIgnoreHiddenFiles (b : bool)
| EvUseSystemConfiguration (b : bool)
| EvApplicationProxy (host : string) (port : Z)
| EvProxyFromConfig
| EvAddExcludeList (path : string) (rc : Z)
| EvCritical (path : string)
| EvFatal (msg : string)
| EvJournalOpen (dir : string)
| EvSelectiveSyncFixup (newList : list string)
| EvStartSync
| EvCsyncDestroy
| EvRestart (restartCount : Z)
| EvWarning (restartCount : Z).

Global Instance Event_eq_dec : EqDecision Event.
Proof. solve_decision. Defined.

Inductive Outcome :=
| Returned (code : Z)          (* [return 0] at the end of [main] *)
| Exit (code : Z)              (* [exit] inside [parseOptions] *)
| Fatal                        (* [qFatal] *)
| Undefined.                   (* [peekNext] past the end *)

Record Run := {
  outcome : Outcome;
  trace : list Event;
  journal : SyncJournalDb;
}.

(** ** Credentials (cmd.cpp, lines 315-351) *)

(** [std::getline(std::cin, s)] *)
Definition getline (stdin : list string) : string * list string :=
  match stdin with
  | [] => ("", [])
  | l :: stdin' => (l, stdin')
  end.

(** Stages 1 and 2: from the URL, then from the options. *)
Definition credentialsFromOptions (env : Env) (options : CmdOptions) : LoginPair :=
  let user0 := env_urlUserName env (target_url options) in
  let password0 := env_urlPassword env (target_url options) in
  let user1 := if negb (QString.isEmpty (user options)) then user options else user0 in
  let password1 :=
    if negb (QString.isEmpty (password options)) then password options else password0 in
  (user1, password1).

(** Stage 3: netrc (lines 332-339). *)
Definition credentialsFromNetrc (useNetrc : bool) (parser : NetrcParser)
    (host : string) (prior : LoginPair) : LoginPair :=
  if useNetrc then
    if netrc_parse parser then
      let login := netrc_find parser host in
      (login.1, login.2)
    else prior
  else prior.

(** Stage 4: the prompts (lines 341-351). *)
Definition credentialsFromPrompt (interactive : bool) (stdin : list string)
    (prior : LoginPair) : LoginPair * list string * list Event :=
  if interactive then
    let '(user1, stdin1, tr1) :=
      if QString.isEmpty prior.1
      then let '(s, stdin') := getline stdin in (s, stdin', [EvPromptUser])
      else (prior.1, stdin, []) in
    let '(password1, stdin2, tr2) :=
      if QString.isEmpty prior.2
      then let '(s, stdin') := getline stdin1 in (s, stdin', [EvQueryPassword user1])
      else (prior.2, stdin1, []) in
    ((user1, password1), stdin2, tr1 ++ tr2)
  else (prior, stdin, []).

Definition resolveCredentials (env : Env) (options : CmdOptions)
  : LoginPair * list string * list Event :=
  credentialsFromPrompt (interactive options) (env_stdin env)
    (credentialsFromNetrc (useNetrc options) (env_netrc env)
       (env_urlHost env (target_url options))
       (credentialsFromOptions env options)).

(** ** The target URL (cmd.cpp, lines 295-312) *)

Definition accountOf (options : CmdOptions) : Account :=
  {| acc_nonShib := nonShib options;
     acc_davPath := davPath options |}.

Definition fixTargetUrl (env : Env) (options : CmdOptions) : CmdOptions :=
  let account := accountOf options in
  let options :=
    if negb (QString.endsWith (target_url options) "/")
    then set_target_url (QString.append (target_url options) "/") options
    else options in
  let options :=
    if negb (QString.contains (target_url options) (env_davPath env account))
    then set_target_url (QString.append (target_url options) (env_davPath env account)) options
    else options in
  if QString.startsWith (target_url options) "http"
  then set_target_url (QString.replace0 4 "owncloud" (target_url options)) options
  else options.

(** ** One pass: from [restart_sync:] to [csync_destroy] (lines 386-478) *)

(** The conversion of an [int] to the [quint16] port parameter of
    [QNetworkProxy(type, host, port)]: the value modulo 2^16. *)
Definition quint16 (n : Z) : Z := n mod 2 ^ 16.

(** Proxy (lines 401-425).  [port] is the [int] of line 413; the proxy
    installed on line 416 has it as a [quint16].  The local [url] of the
    [else] branch is computed and dropped by the source, so it leaves no
    trace here. *)
Definition proxySetup (options : CmdOptions) : list Event :=
  match proxy options with
  | Some p =>
      let pList := QString.split ":" p in
      if (length pList =? 3)%nat then
        let host := nth 1 pList "" in
        let host := if QString.startsWith host "//" then QString.remove0 2 host else host in
        let port := QString.toInt (nth 2 pList "") in
        [EvUseSystemConfiguration false; EvApplicationProxy host (quint16 port)]
      else []
  | None => [EvProxyFromConfig]
  end.

(** Exclude lists (lines 428-437): the two return codes, [false] (that is 0)
    for a list that was not attempted. *)
Definition loadExcludeLists (env : Env) (restartCount : Z) (options : CmdOptions)
  : Z * Z * list Event :=
  let systemExcludeListFn := env_excludeFileFromSystem env in
  let '(loadedSystemExcludeList, tr1) :=
    if negb (QString.isEmpty systemExcludeListFn)
    then let rc := env_csync_add_exclude_list env restartCount systemExcludeListFn in
         (rc, [EvAddExcludeList systemExcludeListFn rc])
    else (0, []) in
  let '(loadedUserExcludeList, tr2) :=
    if negb (QString.isEmpty (exclude options))
    then let rc := env_csync_add_exclude_list env restartCount (exclude options) in
         (rc, [EvAddExcludeList (exclude options) rc])
    else (0, []) in
  (loadedSystemExcludeList, loadedUserExcludeList, tr1 ++ tr2).

(** The test of line 457. *)
Definition excludeListsFatal (loadedSystemExcludeList loadedUserExcludeList : Z) : bool :=
  negb (loadedSystemExcludeList =? 0) && negb (loadedUserExcludeList =? 0).

(** Selective-sync list (lines 439-454). *)
Definition readSelectiveSyncList (env : Env) (restartCount : Z) (options : CmdOptions)
  : list string * list Event :=
  if negb (QString.isEmpty (unsyncedfolders options)) then
    match env_readFile env restartCount (unsyncedfolders options) with
    | None => ([], [EvCritical (unsyncedfolders options)])
    | Some content => (selectiveSyncListOfContent content, [])
    end
  else ([], []).

Inductive PassResult :=
| PassFatal (tr : list Event)
| PassFinished (journal : SyncJournalDb) (anotherSyncNeeded : bool) (tr : list Event).

Definition syncPass (env : Env) (options : CmdOptions) (remUrl : string)
    (restartCount : Z) (journal : SyncJournalDb) : PassResult :=
  let tr0 :=
    [EvCsyncCreate (source_dir options) remUrl;
     EvLogLevel (if silent options then 1 else 11);
     EvIgnoreHiddenFiles (ignoreHiddenFiles options)] ++ proxySetup options in
  let '(loadedSystemExcludeList, loadedUserExcludeList, tr1) :=
    loadExcludeLists env restartCount options in
  let '(selectiveSyncList, tr2) := readSelectiveSyncList env restartCount options in
  if excludeListsFatal loadedSystemExcludeList loadedUserExcludeList then
    PassFatal (tr0 ++ tr1 ++ tr2 ++
               [EvFatal "Cannot load system exclude list or list supplied via --exclude"])
  else
    let '(journal1, tr3) :=
      match selectiveSyncList with
      | [] => (journal, [])
      | _ :: _ => (selectiveSyncFixup journal selectiveSyncList,
                   [EvSelectiveSyncFixup selectiveSyncList])
      end in
    let '(journal2, anotherSyncNeeded) := env_engine env restartCount journal1 in
    PassFinished journal2 anotherSyncNeeded
      (tr0 ++ tr1 ++ tr2 ++ [EvJournalOpen (source_dir options)] ++ tr3 ++
       [EvStartSync; EvCsyncDestroy]).

(** ** The restart loop (lines 385-489) *)

(** [goto restart_sync] is the recursive call.  Every jump raises
    [restartCount] towards [restartTimes]; [fuel] counts the jumps still
    allowed to the model, and [None] means it ran out. *)
Fixpoint restartSync (fuel : nat) (env : Env) (options : CmdOptions) (remUrl : string)
    (restartCount : Z) (journal : SyncJournalDb) (tr : list Event) : option Run :=
  match syncPass env options remUrl restartCount journal with
  | PassFatal tr' =>
      Some {| outcome := Fatal; trace := tr ++ tr'; journal := journal |}
  | PassFinished journal' anotherSyncNeeded tr' =>
      if anotherSyncNeeded then
        if restartCount <? restartTimes options then
          let restartCount := restartCount + 1 in
          match fuel with
          | O => None
          | S fuel' =>
              restartSync fuel' env options remUrl restartCount journal'
                          (tr ++ tr' ++ [EvRestart restartCount])
          end
        else
          Some {| outcome := Returned 0;
                  trace := tr ++ tr' ++ [EvWarning restartCount];
                  journal := journal' |}
      else
        Some {| outcome := Returned 0; trace := tr ++ tr'; journal := journal' |}
  end.

(** ** [main] after [parseOptions] (lines 289-489) *)

Definition mainFrom (env : Env) (options : CmdOptions) : option Run :=
  if negb (env_accountCreated env) then
    Some {| outcome := Fatal; trace := [EvFatal "Could not initialize account!"];
            journal := env_journal env |}
  else
    let options := fixTargetUrl env options in
    let '(user, password, _, tr) := resolveCredentials env options in
    let remUrl := target_url options in
    let tr := tr ++ [EvCredentials user password (trustSSL options)] in
    restartSync (Z.to_nat (restartTimes options)) env options remUrl 0
                (env_journal env) tr.

(** [main]: [app_args] is [app.arguments()]. *)
Definition main (env : Env) (app_args : list string) : option Run :=
  let stopped o := Some {| outcome := o; trace := []; journal := env_journal env |} in
  match parseOptions (env_fileExists env) app_args initialOptions with
  | Parsed options => mainFrom env options
  | ExitHelp => stopped (Exit 0)
  | ExitVersion => stopped (Exit 0)
  | ExitNoSourceDir _ => stopped (Exit 1)
  | PeekPastEnd => stopped Undefined
  end.

(** Trace of a pass, whatever its end. *)
Definition passTrace (r : PassResult) : list Event :=
  match r with
  | PassFatal tr => tr
  | PassFinished _ _ tr => tr
  end.

(** Number of events of a kind in a trace. *)
Definition countEv (p : Event → bool) (tr : list Event) : nat :=
  length (List.filter p tr).

Definition isCredentials (e : Event) : bool :=
  match e with EvCredentials _ _ _ => true | _ => false end.
Definition isCsyncCreate (e : Event) : bool :=
  match e with EvCsyncCreate _ _ => true | _ => false end.
Definition isJournalOpen (e : Event) : bool :=
  match e with EvJournalOpen _ => true | _ => false end.
Definition isSelectiveSyncFixup (e : Event) : bool :=
  match e with EvSelectiveSyncFixup _ => true | _ => false end.
Definition isStartSync (e : Event) : bool :=
  match e with EvStartSync => true | _ => false end.
Definition isRestart (e : Event) : bool :=
  match e with EvRestart _ => true | _ => false end.
Definition isWarning (e : Event) : bool :=
  match e with EvWarning _ => true | _ => false end.
Definition isProxyFromConfig (e : Event) : bool :=
  match e with EvProxyFromConfig => true | _ => false end.

(** Occurrences of a character in a string. *)
Fixpoint countChar (c : ascii) (s : string) : nat :=
  match s with
  | "" => O
  | String a s' => (if Ascii.eqb a c then 1 else 0) + countChar c s'
  end.

(** ** The shape of a pass trace *)

(** Events of the proxy, exclude-list and selective-sync-file steps. *)
Definition isSetupEvent (e : Event) : bool :=
  match e with
  | EvUseSystemConfiguration _ | EvApplicationProxy _ _ | EvProxyFromConfig
  | EvAddExcludeList _ _ | EvCritical _ => true
  | _ => false
  end.

Definition contextTrace (options : CmdOptions) (remUrl : string) : list Event :=
  [EvCsyncCreate (source_dir options) remUrl;
   EvLogLevel (if silent options then 1 else 11);
   EvIgnoreHiddenFiles (ignoreHiddenFiles options)].

Definition setupTrace (env : Env) (restartCount : Z) (options : CmdOptions) : list Event :=
  proxySetup options ++ (loadExcludeLists env restartCount options).2 ++
  (readSelectiveSyncList env restartCount options).2.

Definition fixupTrace (selectiveSyncList : list string) : list Event :=
  match selectiveSyncList with
  | [] => []
  | _ :: _ => [EvSelectiveSyncFixup selectiveSyncList]
  end.

(** The journal handed to the engine in a pass that is not fatal. *)
Definition journalAfterFixup (journal : SyncJournalDb) (selectiveSyncList : list string)
  : SyncJournalDb :=
  match selectiveSyncList with
  | [] => journal
  | _ :: _ => selectiveSyncFixup journal selectiveSyncList
  end.

(** Whether the pass started at [restartCount] stops at the test of line 457. *)
Definition passIsFatal (env : Env) (restartCount : Z) (options : CmdOptions) : bool :=
  let loaded := (loadExcludeLists env restartCount options).1 in
  excludeListsFatal loaded.1 loaded.2.

(** An event agrees with [dir] and [url]: a context is created for them, a
    journal is opened on [dir]. *)
Definition sameTargets (dir url : string) (e : Event) : Prop :=
  match e with
  | EvCsyncCreate s u => s = dir ∧ u = url
  | EvJournalOpen d => d = dir
  | _ => True
  end.

(** ** Sample inputs *)

Definition freshJournal : SyncJournalDb :=
  {| db_exists := false; db_openable := true; blacklist := []; avoid_read := [] |}.

Definition journalAB : SyncJournalDb :=
  {| db_exists := true; db_openable := true;
     blacklist := ["/a/"; "/b/"]; avoid_read := [] |}.

(** An environment in which everything is at hand: the source directory
    exists, the file of unsynced folders has two lines and a comment, the
    system exclude list loads, and nothing waits on standard input. *)
Definition sampleEnv (anotherSyncNeeded : bool) : Env :=
  {| env_fileExists := λ _, true;
     env_readFile := λ _ _, Some "photos
# not this one
music/";
     env_accountCreated := true;
     env_davPath := λ _, "remote.php/webdav/";
     env_urlUserName := λ _, "";
     env_urlPassword := λ _, "";
     env_urlHost := λ _, "example.com";
     env_netrc := {| netrc_parse := true;
                     netrc_entries := [("example.org", ("bob", "hunter2"))];
                     netrc_default := ("", "") |};
     env_stdin := [];
     env_excludeFileFromSystem := "/etc/owncloud/sync-exclude.lst";
     env_csync_add_exclude_list := λ _ _, 0;
     env_engine := λ _ j, (j, anotherSyncNeeded);
     env_journal := journalAB |}.

Definition sampleOptions : CmdOptions :=
  set_unsyncedfolders "unsynced.txt"
    (set_target_url "http://example.com/"
       (set_source_dir "/tmp/sync/" initialOptions)).

(** The command line of a plain run, and one that names a file of unsynced
    folders. *)
Definition sampleArgs : list string :=
  ["owncloudcmd"; "/tmp/sync"; "http://example.com"].

Definition sampleArgsUnsynced : list string :=
  ["owncloudcmd"; "--unsyncedfolders"; "unsynced.txt"; "/tmp/sync"; "http://example.com"].

(** Options that carry a user and a password and ask for netrc. *)
Definition netrcOptions : CmdOptions :=
  set_useNetrc true (set_user "alice" (set_password "secret" sampleOptions)).

(** No system exclude list, and a loader that fails with [rc] whatever the path. *)
Definition failingExcludeEnv (rc : Z) : Env :=
  {| env_fileExists := λ _, true;
     env_readFile := λ _ _, None;
     env_accountCreated := true;
     env_davPath := λ _, "remote.php/webdav/";
     env_urlUserName := λ _, "";
     env_urlPassword := λ _, "";
     env_urlHost := λ _, "example.com";
     env_netrc := {| netrc_parse := false; netrc_entries := []; netrc_default := ("", "") |};
     env_stdin := [];
     env_excludeFileFromSystem := "";
     env_csync_add_exclude_list := λ _ _, rc;
     env_engine := λ _ j, (j, false);
     env_journal := journalAB |}.

Definition excludeArgs : list string :=
  ["owncloudcmd"; "--exclude"; "/no/such/file"; "/tmp/sync"; "http://example.com"].

(** ** The option table of [parseOptions] *)

(** The branches of the [if]/[else if] chain of lines 211-239, by name. *)
Inductive OptionName :=
| OptHttpProxy | OptSilent | OptTrust | OptNetrc | OptHidden | OptNonInteractive
| OptUser | OptPassword | OptExclude | OptUnsyncedFolders | OptNonShib
| OptDavPath | OptMaxSyncRetries.

Global Instance OptionName_eq_dec : EqDecision OptionName.
Proof. solve_decision. Defined.

(** The spellings each branch compares [option] with, in the order of the chain. *)
Definition optionNamed (word : string) : option OptionName :=
  let isOpt name := String.eqb word name in
  if isOpt "--httpproxy" then Some OptHttpProxy
  else if isOpt "-s" || isOpt "--silent" then Some OptSilent
  else if isOpt "--trust" then Some OptTrust
  else if isOpt "-n" then Some OptNetrc
  else if isOpt "-h" then Some OptHidden
  else if isOpt "--non-interactive" then Some OptNonInteractive
  else if isOpt "-u" || isOpt "--user" then Some OptUser
  else if isOpt "-p" || isOpt "--password" then Some OptPassword
  else if isOpt "--exclude" then Some OptExclude
  else if isOpt "--unsyncedfolders" then Some OptUnsyncedFolders
  else if isOpt "--nonshib" then Some OptNonShib
  else if isOpt "--davpath" then Some OptDavPath
  else if isOpt "--max-sync-retries" then Some OptMaxSyncRetries
  else None.

(** The branches whose condition also looks at [it.peekNext()]. *)
Definition takesArgument (n : OptionName) : bool :=
  match n with
  | OptHttpProxy | OptUser | OptPassword | OptExclude | OptUnsyncedFolders
  | OptDavPath | OptMaxSyncRetries => true
  | OptSilent | OptTrust | OptNetrc | OptHidden | OptNonInteractive | OptNonShib => false
  end.

(** The assignment in the body of a branch; [v] is [it.next()] for the
    branches that take an argument and is not used by the others. *)
Definition assignOption (n : OptionName) (v : string) (o : CmdOptions) : CmdOptions :=
  match n with
  | OptHttpProxy => set_proxy (Some v) o
  | OptSilent => set_silent true o
  | OptTrust => set_trustSSL true o
  | OptNetrc => set_useNetrc true o
  | OptHidden => set_ignoreHiddenFiles false o
  | OptNonInteractive => set_interactive false o
  | OptUser => set_user v o
  | OptPassword => set_password v o
  | OptExclude => set_exclude v o
  | OptUnsyncedFolders => set_unsyncedfolders v o
  | OptNonShib => set_nonShib true o
  | OptDavPath => set_davPath v o
  | OptMaxSyncRetries => set_restartTimes (QString.toInt v) o
  end.

(** A flag of the option table as a boolean of the options, [true] once the
    branch of the flag has run ([-h] and [--non-interactive] clear their field). *)
Definition flagIsSet (n : OptionName) (o : CmdOptions) : bool :=
  match n with
  | OptSilent => silent o
  | OptTrust => trustSSL o
  | OptNetrc => useNetrc o
  | OptHidden => negb (ignoreHiddenFiles o)
  | OptNonInteractive => negb (interactive o)
  | OptNonShib => nonShib o
  | _ => false
  end.

Definition isCritical (e : Event) : bool :=
  match e with EvCritical _ => true | _ => false end.
Definition isCsyncDestroy (e : Event) : bool :=
  match e with EvCsyncDestroy => true | _ => false end.
Definition isFatalEvent (e : Event) : bool :=
  match e with EvFatal _ => true | _ => false end.

(** Whether a run ended in [qFatal]. *)
Definition endedFatal (r : Run) : bool :=
  match outcome r with Fatal => true | _ => false end.

(** As [sampleEnv], with a loader of exclude lists and an engine that may
    depend on the pass. *)
Definition sampleEnvWith (loader : Z → string → Z) (anotherSyncNeeded : Z → bool) : Env :=
  {| env_fileExists := λ _, true;
     env_readFile := λ _ _, None;
     env_accountCreated := true;
     env_davPath := λ _, "remote.php/webdav/";
     env_urlUserName := λ _, "";
     env_urlPassword := λ _, "";
     env_urlHost := λ _, "example.com";
     env_netrc := {| netrc_parse := false; netrc_entries := []; netrc_default := ("", "") |};
     env_stdin := [];
     env_excludeFileFromSystem := "/etc/owncloud/sync-exclude.lst";
     env_csync_add_exclude_list := loader;
     env_engine := λ rc j, (j, anotherSyncNeeded rc);
     env_journal := journalAB |}.

(** Whether a spelling of the option [n] is among the words. *)
Definition optionOccurs (n : OptionName) (words : list string) : bool :=
  existsb (λ w, bool_decide (optionNamed w = Some n)) words.

(** An event agrees with the settings of a run: the log level with the
    silent flag, the hidden-file policy and the trust in the certificate
    with theirs. *)
Definition runSettings (silent ignoreHidden trusted : bool) (e : Event) : Prop :=
  match e with
  | EvLogLevel level => level = (if silent then 1 else 11)
  | EvIgnoreHiddenFiles b => b = ignoreHidden
  | EvCredentials _ _ t => t = trusted
  | _ => True
  end.

(** ** The terminal (cmd.cpp, lines 70-111, the branch without [Q_OS_WIN]) *)

(** Standard input as [tcgetattr] and [tcsetattr] see it: a terminal or
    not, and the [c_lflag] word of its attributes, the one field the source
    changes. *)
Record Terminal := {
  isTerminal : bool;
  c_lflag : Z;
}.

(** [tcgetattr(STDIN_FILENO, &tios)]: fills [tios] from a terminal; fails on
    anything else and leaves [tios] as it was.  The source drops the result. *)
Definition tcgetattr (t : Terminal) (tios : Z) : Z :=
  if isTerminal t then c_lflag t else tios.

(** [tcsetattr(STDIN_FILENO, TCSANOW, &tios)]: sets the attributes of a
    terminal; fails on anything else and changes nothing. *)
Definition tcsetattr (t : Terminal) (tios : Z) : Terminal :=
  if isTerminal t then {| isTerminal := true; c_lflag := tios |} else t.

(** The member [tios] of an [EchoDisabler]. *)
Record EchoDisabler := { tios : Z }.

(** The constructor; [ECHO] is the constant of [termios.h] and [uninitialised]
    what the member holds before [tcgetattr] writes it. *)
Definition EchoDisabler_ctor (ECHO uninitialised : Z) (t : Terminal)
  : EchoDisabler * Terminal :=
  let tios := tcgetattr t uninitialised in
  let tios_new := Z.land tios (Z.lnot ECHO) in
  ({| tios := tios |}, tcsetattr t tios_new).

(** The destructor. *)
Definition EchoDisabler_dtor (d : EchoDisabler) (t : Terminal) : Terminal :=
  tcsetattr t (tios d).

(** What [queryPassword] leaves: the line read, the lines still waiting, the
    terminal as it was while the line was read and as it is on return. *)
Record PasswordQuery := {
  pq_password : string;
  pq_stdin : list string;
  pq_reading : Terminal;
  pq_after : Terminal;
}.

(** [queryPassword(user)]: the [disabler] lives from the first line of the
    body to the return. *)
Definition queryPassword (ECHO uninitialised : Z) (t : Terminal)
    (stdin : list string) (user : string) : PasswordQuery :=
  let '(disabler, t1) := EchoDisabler_ctor ECHO uninitialised t in
  let '(s, stdin') := getline stdin in
  {| pq_password := s; pq_stdin := stdin'; pq_reading := t1;
     pq_after := EchoDisabler_dtor disabler t1 |}.

(** ** The trace of a whole run *)

Definition isLogLevel (e : Event) : bool :=
  match e with EvLogLevel _ => true | _ => false end.
Definition isIgnoreHiddenFiles (e : Event) : bool :=
  match e with EvIgnoreHiddenFiles _ => true | _ => false end.
Definition isPrompt (e : Event) : bool :=
  match e with EvPromptUser | EvQueryPassword _ => true | _ => false end.

(** What a pass started at [restartCount] does up to the test of line 457:
    the context is created for [dir] and [url], the log level and the
    hidden-file policy are set, the proxy is set up, the exclude lists are
    loaded and the file of unsynced folders is read (lines 388-454). *)
Definition passBegin (env : Env) (options : CmdOptions) (dir url : string)
    (silent ignoreHidden : bool) (restartCount : Z) : list Event :=
  [EvCsyncCreate dir url;
   EvLogLevel (if silent then 1 else 11);
   EvIgnoreHiddenFiles ignoreHidden] ++
  proxySetup options ++
  (loadExcludeLists env restartCount options).2 ++
  (readSelectiveSyncList env restartCount options).2.

(** What a pass does after that test when it is not stopped there: the
    journal is opened, [selectiveSyncFixup] is called when the list read in
    this pass is not empty, the engine is started and the context is
    destroyed (lines 463-478). *)
Definition passEnd (env : Env) (options : CmdOptions) (dir : string)
    (restartCount : Z) : list Event :=
  [EvJournalOpen dir] ++
  fixupTrace (readSelectiveSyncList env restartCount options).1 ++
  [EvStartSync; EvCsyncDestroy].

(** [n] passes in a row, each followed by the restart it leads to, the first
    of them started at [restartCount]. *)
Fixpoint restartedPasses (pass : Z → list Event) (restartCount : Z) (n : nat)
  : list Event :=
  match n with
  | O => []
  | S n' =>
      pass restartCount ++ [EvRestart (restartCount + 1)] ++
      restartedPasses pass (restartCount + 1) n'
  end.

(** How the last pass of a run can end: stopped by [qFatal], finished, or
    finished with the warning of line 486. *)
Definition lastPassEnding (finish : list Event) (restartCount : Z)
    (ending : list Event) : Prop :=
  ending = [EvFatal "Cannot load system exclude list or list supplied via --exclude"] ∨
  ending = finish ∨
  ending = finish ++ [EvWarning restartCount].

(** Follows the contexts through a trace.  [alive] tells whether a context
    exists.  [None] is a trace that creates a context while one exists, or
    destroys one when none exists; otherwise the result tells whether a
    context exists at the end. *)
Fixpoint contextScan (alive : bool) (tr : list Event) : option bool :=
  match tr with
  | [] => Some alive
  | EvCsyncCreate _ _ :: rest => if alive then None else contextScan true rest
  | EvCsyncDestroy :: rest => if alive then contextScan false rest else None
  | _ :: rest => contextScan alive rest
  end.

(** * Properties *)

(** ** Selective-sync reconciliation *)

Section Journal.

Implicit Types (j : SyncJournalDb) (l : list string).

Lemma foldl_avoidRead j l :
  foldl avoidReadFromDbOnNextSync j l =
  {| db_exists := db_exists j; db_openable := db_openable j;
     blacklist := blacklist j; avoid_read := avoid_read j ++ l |}.
Proof.
  revert j. induction l as [|p l IH]; intros j; simpl.
  - rewrite app_nil_r. by destruct j.
  - rewrite IH. simpl. by rewrite <- app_assoc.
Qed.

Lemma selectiveSyncFixup_no_journal j l :
  db_exists j = false → selectiveSyncFixup j l = j.
Proof. intros H. unfold selectiveSyncFixup. by rewrite H. Qed.

Lemma selectiveSyncFixup_not_openable j l :
  db_openable j = false → selectiveSyncFixup j l = j.
Proof.
  intros H. unfold selectiveSyncFixup. rewrite H.
  by destruct (db_exists j).
Qed.

Lemma selectiveSyncFixup_run j l :
  db_exists j = true → db_openable j = true →
  selectiveSyncFixup j l =
  {| db_exists := true; db_openable := true; blacklist := l;
     avoid_read :=
       avoid_read j ++ elements (changes (toSet (blacklist j)) (toSet l)) |}.
Proof.
  intros He Ho. unfold selectiveSyncFixup. rewrite He, Ho. simpl.
  rewrite foldl_avoidRead. unfold setSelectiveSyncList, getSelectiveSyncList.
  simpl. by rewrite He, Ho.
Qed.

Lemma changes_same (X : gset string) : changes X X = ∅.
Proof.
  unfold changes. apply set_eq. intros p.
  rewrite elem_of_union, elem_of_difference, elem_of_empty. tauto.
Qed.

Lemma changes_spec (X Y : gset string) (p : string) :
  p ∈ changes X Y ↔ (p ∈ X ∧ p ∉ Y) ∨ (p ∈ Y ∧ p ∉ X).
Proof. unfold changes. by rewrite elem_of_union, !elem_of_difference. Qed.

End Journal.

(** C3, as the code has it: when the journal does not exist yet,
    [selectiveSyncFixup] returns at once and leaves the journal as it was; the
    new list is not persisted and no path is invalidated. *)
Theorem fixup_first_run_untouched (j : SyncJournalDb) (newList : list string) :
  db_exists j = false →
  selectiveSyncFixup j newList = j ∧
  blacklist (selectiveSyncFixup j newList) = blacklist j ∧
  avoid_read (selectiveSyncFixup j newList) = avoid_read j.
Proof. intros H. by rewrite selectiveSyncFixup_no_journal. Qed.

Lemma fixup_first_run_untouched_witness :
  db_exists freshJournal = false ∧
  selectiveSyncFixup freshJournal ["/a/"] = freshJournal.
Proof.
  split; [reflexivity|].
  apply (fixup_first_run_untouched freshJournal ["/a/"]). reflexivity.
Defined.

(** C3 as the specification words it fails: on a first run the supplied list
    ["/a/"] is not what the journal holds afterwards. *)
Lemma fixup_first_run_not_persisted :
  db_exists freshJournal = false ∧
  blacklist (selectiveSyncFixup freshJournal ["/a/"]) = [] ∧
  blacklist (selectiveSyncFixup freshJournal ["/a/"]) ≠ ["/a/"].
Proof. repeat split. discriminate. Qed.

(** C8: with the blacklist {"/a/", "/b/"} persisted and the new list
    {"/b/", "/c/"}, the call invalidates "/a/" and "/c/", each once and nothing
    else, and persists the new list. *)
Theorem fixup_example_symmetric_difference (j : SyncJournalDb) (newList : list string) :
  db_exists j = true → db_openable j = true →
  toSet (blacklist j) = {[ "/a/"; "/b/" ]} →
  toSet newList = {[ "/b/"; "/c/" ]} →
  ∃ invalidated,
    avoid_read (selectiveSyncFixup j newList) = avoid_read j ++ invalidated ∧
    invalidated ≡ₚ ["/a/"; "/c/"] ∧
    blacklist (selectiveSyncFixup j newList) = newList ∧
    toSet (blacklist (selectiveSyncFixup j newList)) = {[ "/b/"; "/c/" ]}.
Proof.
  intros He Ho Hold Hnew. rewrite (selectiveSyncFixup_run _ _ He Ho). simpl.
  rewrite Hold, Hnew. eexists. split; [reflexivity|]. split; [|done].
  apply NoDup_Permutation.
  - apply NoDup_elements.
  - apply NoDup_cons. split; [|apply NoDup_singleton].
    rewrite list_elem_of_singleton. discriminate.
  - intros p. rewrite elem_of_elements, changes_spec.
    rewrite !elem_of_union, !elem_of_singleton.
    rewrite elem_of_cons, list_elem_of_singleton.
    split.
    + intros [[[->| ->] Hn]|[[->| ->] Hn]]; auto; exfalso; apply Hn; auto.
    + intros [->| ->]; [left|right]; (split; [auto|]);
        intros [H|H]; discriminate H.
Qed.

Lemma fixup_example_symmetric_difference_witness :
  ∃ invalidated,
    avoid_read (selectiveSyncFixup journalAB ["/b/"; "/c/"])
      = avoid_read journalAB ++ invalidated ∧
    invalidated ≡ₚ ["/a/"; "/c/"] ∧
    blacklist (selectiveSyncFixup journalAB ["/b/"; "/c/"]) = ["/b/"; "/c/"] ∧
    toSet (blacklist (selectiveSyncFixup journalAB ["/b/"; "/c/"])) = {[ "/b/"; "/c/" ]}.
Proof.
  apply (fixup_example_symmetric_difference journalAB ["/b/"; "/c/"]).
  - reflexivity.
  - reflexivity.
  - unfold toSet. simpl. set_solver.
  - unfold toSet. simpl. set_solver.
Defined.

(** C9: a second call in a row with the same new list changes nothing: the
    journal after it is the journal after the first call, so its log of
    invalidated paths has not grown, and the change set computed against a
    blacklist that was just persisted from the same list is empty. *)
Theorem fixup_idempotent (j : SyncJournalDb) (newList : list string) :
  selectiveSyncFixup (selectiveSyncFixup j newList) newList
    = selectiveSyncFixup j newList ∧
  avoid_read (selectiveSyncFixup (selectiveSyncFixup j newList) newList)
    = avoid_read (selectiveSyncFixup j newList) ∧
  changes (toSet (getSelectiveSyncList (setSelectiveSyncList j newList)))
          (toSet newList) = ∅.
Proof.
  assert (Hid : selectiveSyncFixup (selectiveSyncFixup j newList) newList
                = selectiveSyncFixup j newList).
  { destruct (db_exists j) eqn:He.
    - destruct (db_openable j) eqn:Ho.
      + rewrite (selectiveSyncFixup_run j newList He Ho).
        rewrite selectiveSyncFixup_run by reflexivity. simpl.
        rewrite changes_same, elements_empty. by rewrite app_nil_r.
      + by rewrite !(selectiveSyncFixup_not_openable j newList Ho).
    - by rewrite !(selectiveSyncFixup_no_journal j newList He). }
  split; [exact Hid|]. split; [by rewrite Hid|].
  simpl. apply changes_same.
Qed.

(** ** The selective-sync list read from a file *)

Section SelectiveSyncList.

Lemma indexIn_S_plus_spec (s : string) :
  bool_decide (is_Some (indexIn_S_plus s)) = negb (isBlankLine s).
Proof.
  induction s as [|a s IH]; [done|].
  unfold isBlankLine in *. cbn [indexIn_S_plus nonSpaceRun list_ascii_of_string forallb].
  destruct (QString.isSpace a); cbn.
  - rewrite <- IH. apply bool_decide_ext. by rewrite fmap_is_Some.
  - done.
Qed.

Lemma beginsWithHash_eqb (a : ascii) (s : string) :
  beginsWithHash (String a s) = Ascii.eqb a "#".
Proof. by destruct a as [[] [] [] [] [] [] [] []]. Qed.

Lemma indexIn_caret_not_hash_spec (s : string) :
  bool_decide (is_Some (indexIn_caret_not_hash s)) =
  negb (QString.isEmpty s) && negb (beginsWithHash s).
Proof.
  destruct s as [|a s]; [done|].
  rewrite beginsWithHash_eqb. cbn. by destruct (Ascii.eqb a "#").
Qed.

Lemma isBlankLine_empty (s : string) :
  QString.isEmpty s = true → isBlankLine s = true.
Proof. by destruct s. Qed.

(** The two regular-expression filters keep the lines the specification keeps. *)
Lemma filterRx_spec (l : list string) :
  filterRx indexIn_caret_not_hash (filterRx indexIn_S_plus l) =
  List.filter (λ s, negb (isBlankLine s) && negb (beginsWithHash s)) l.
Proof.
  unfold filterRx. induction l as [|s l IH]; [done|].
  cbn [List.filter]. rewrite indexIn_S_plus_spec.
  destruct (isBlankLine s) eqn:Hb; cbn [negb andb]; [exact IH|].
  cbn [List.filter]. rewrite indexIn_caret_not_hash_spec, IH.
  destruct (QString.isEmpty s) eqn:He; [|done].
  apply isBlankLine_empty in He. congruence.
Qed.

Lemma appendSlash_step (s : string) :
  (if negb (QString.endsWith s "/") then QString.append s "/" else s)
  = withTrailingSlash s.
Proof. unfold withTrailingSlash, QString.append. by destruct (QString.endsWith s "/"). Qed.

(** The index loop has rewritten the positions from [i] on. *)
Lemma appendSlashLoop_spec (n i : nat) (l : list string) :
  (i + n = length l)%nat →
  appendSlashLoop n i l = take i l ++ (withTrailingSlash <$> drop i l).
Proof.
  revert i l. induction n as [|n IH]; intros i l Hlen.
  - simpl. rewrite Nat.add_0_r in Hlen. subst i.
    by rewrite firstn_all, drop_all, app_nil_r.
  - destruct (lookup_lt_is_Some_2 l i) as [s Hs]; [lia|].
    cbn [appendSlashLoop]. rewrite Hs.
    assert (Hl' : (if negb (QString.endsWith s "/")
                   then <[i:=QString.append s "/"]> l else l)
                  = <[i:=withTrailingSlash s]> l).
    { rewrite <- appendSlash_step.
      destruct (QString.endsWith s "/"); cbn [negb]; [|done].
      by rewrite list_insert_id. }
    rewrite Hl'. rewrite IH by (rewrite length_insert; lia).
    rewrite (take_S_r _ _ (withTrailingSlash s))
      by (rewrite list_lookup_insert_eq; [done|by eapply lookup_lt_Some]).
    rewrite take_insert_ge by lia.
    rewrite drop_insert_lt by lia.
    rewrite (drop_S l s i Hs). cbn [fmap list_fmap].
    by rewrite <- app_assoc.
Qed.

Lemma selectiveSyncListOfContent_spec (content : string) :
  selectiveSyncListOfContent content = specExclusionList content.
Proof.
  unfold selectiveSyncListOfContent, specExclusionList.
  rewrite appendSlashLoop_spec by done.
  by rewrite filterRx_spec.
Qed.

End SelectiveSyncList.

(** ** One pass *)

Section Pass.

Variables (env : Env) (options : CmdOptions) (remUrl : string).

Lemma syncPass_unfold (restartCount : Z) (j : SyncJournalDb) :
  syncPass env options remUrl restartCount j =
  let selectiveSyncList := (readSelectiveSyncList env restartCount options).1 in
  if passIsFatal env restartCount options then
    PassFatal (contextTrace options remUrl ++ setupTrace env restartCount options ++
               [EvFatal "Cannot load system exclude list or list supplied via --exclude"])
  else
    let result := env_engine env restartCount (journalAfterFixup j selectiveSyncList) in
    PassFinished result.1 result.2
      (contextTrace options remUrl ++ setupTrace env restartCount options ++
       [EvJournalOpen (source_dir options)] ++ fixupTrace selectiveSyncList ++
       [EvStartSync; EvCsyncDestroy]).
Proof.
  unfold syncPass, passIsFatal, setupTrace, contextTrace.
  destruct (loadExcludeLists env restartCount options) as [[ls lu] tr1].
  destruct (readSelectiveSyncList env restartCount options) as [l tr2].
  cbn [fst snd]. destruct (excludeListsFatal ls lu).
  - by rewrite <- !app_assoc.
  - destruct l as [|p l]; cbn [journalAfterFixup fixupTrace];
      destruct (env_engine env restartCount _) as [j2 another];
      cbn [fst snd]; by rewrite <- !app_assoc.
Qed.

Lemma proxySetup_setup : Forall (λ e, isSetupEvent e = true) (proxySetup options).
Proof.
  unfold proxySetup. destruct (proxy options) as [p|].
  - destruct (length (QString.split ":" p) =? 3)%nat; repeat constructor.
  - repeat constructor.
Qed.

Lemma setupTrace_setup (restartCount : Z) :
  Forall (λ e, isSetupEvent e = true) (setupTrace env restartCount options).
Proof.
  unfold setupTrace. rewrite !Forall_app. split; [apply proxySetup_setup|]. split.
  - unfold loadExcludeLists.
    destruct (negb (QString.isEmpty (env_excludeFileFromSystem env)));
      destruct (negb (QString.isEmpty (exclude options))); repeat constructor.
  - unfold readSelectiveSyncList.
    destruct (negb (QString.isEmpty (unsyncedfolders options))); [|constructor].
    destruct (env_readFile env restartCount (unsyncedfolders options));
      repeat constructor.
Qed.

End Pass.

Section Counting.

Lemma countEv_app (p : Event → bool) (tr1 tr2 : list Event) :
  countEv p (tr1 ++ tr2) = (countEv p tr1 + countEv p tr2)%nat.
Proof. unfold countEv. by rewrite List.filter_app, length_app. Qed.

Lemma countEv_none (p : Event → bool) (tr : list Event) :
  Forall (λ e, p e = false) tr → countEv p tr = O.
Proof.
  unfold countEv. induction 1 as [|e tr He _ IH]; [done|].
  cbn [List.filter]. by rewrite He.
Qed.

(** A kind of event that no set-up step emits does not occur in [setupTrace]. *)
Lemma countEv_setupTrace (p : Event → bool) env restartCount options :
  (∀ e, isSetupEvent e = true → p e = false) →
  countEv p (setupTrace env restartCount options) = O.
Proof.
  intros Hp. apply countEv_none.
  eapply Forall_impl; [apply setupTrace_setup|]. exact Hp.
Qed.

End Counting.

(** C10: when the file of unsynced folders is named and can be read, the list
    is the lines of the file without the empty and white-space-only ones and
    without those that begin with a hash sign, each with a trailing slash
    added unless it has one; it is this list that the pass gives to
    [selectiveSyncFixup], and the engine gets the journal left by that call. *)
Theorem selective_sync_list_from_file
    (env : Env) (options : CmdOptions) (remUrl : string) (restartCount : Z)
    (j : SyncJournalDb) (content : string) :
  QString.isEmpty (unsyncedfolders options) = false →
  env_readFile env restartCount (unsyncedfolders options) = Some content →
  readSelectiveSyncList env restartCount options = (specExclusionList content, []) ∧
  (∀ l, EvSelectiveSyncFixup l ∈ passTrace (syncPass env options remUrl restartCount j) →
        l = specExclusionList content) ∧
  match syncPass env options remUrl restartCount j with
  | PassFatal _ => True
  | PassFinished j' another _ =>
      (j', another) =
      env_engine env restartCount (journalAfterFixup j (specExclusionList content))
  end.
Proof.
  intros Hne Hread.
  assert (Hl : readSelectiveSyncList env restartCount options
               = (specExclusionList content, [])).
  { unfold readSelectiveSyncList. rewrite Hne, Hread. cbn [negb].
    by rewrite selectiveSyncListOfContent_spec. }
  split; [exact Hl|]. rewrite syncPass_unfold, Hl. cbn [fst snd].
  pose proof (setupTrace_setup env options restartCount) as Hsetup.
  rewrite Forall_forall in Hsetup.
  assert (Hno : ∀ l, EvSelectiveSyncFixup l ∉ setupTrace env restartCount options).
  { intros l Hin. apply Hsetup in Hin. discriminate Hin. }
  destruct (passIsFatal env restartCount options); cbn [passTrace].
  - split; [|done]. intros l. unfold contextTrace.
    rewrite !elem_of_app, !elem_of_cons, elem_of_nil.
    intros [[H|[H|[H|[]]]]|[H|[H|[]]]]; try discriminate H.
    by apply Hno in H.
  - split; [|by destruct (env_engine _ _ _)].
    intros l. unfold contextTrace.
    rewrite !elem_of_app, !elem_of_cons, !elem_of_nil.
    intros [[H|[H|[H|[]]]]|[H|[[H|[]]|[H|[H|[H|[]]]]]]]; try discriminate H.
    { by apply Hno in H. }
    destruct (specExclusionList content) as [|p l']; cbn [fixupTrace] in H.
    + by apply elem_of_nil in H.
    + apply list_elem_of_singleton in H. congruence.
Qed.

Lemma selective_sync_list_from_file_witness :
  readSelectiveSyncList (sampleEnv false) 0 sampleOptions = (["photos/"; "music/"], []) ∧
  ∀ l, EvSelectiveSyncFixup l
         ∈ passTrace (syncPass (sampleEnv false) sampleOptions "owncloud://example.com/" 0 journalAB) →
       l = ["photos/"; "music/"].
Proof.
  destruct (selective_sync_list_from_file (sampleEnv false) sampleOptions
              "owncloud://example.com/" 0 journalAB "photos
# not this one
music/") as (H1 & H2 & _).
  - reflexivity.
  - reflexivity.
  - split; [exact H1 | exact H2].
Defined.

(** ** The restart loop *)

(** Counts the events of kind [p] in the trace of a pass. *)
Ltac count_pass :=
  rewrite syncPass_unfold; cbv zeta;
  destruct (passIsFatal _ _ _); cbn [passTrace];
  rewrite !countEv_app, countEv_setupTrace
    by (intros [] Hs; solve [reflexivity | discriminate Hs]);
  try reflexivity.

Section Loop.

Variables (env : Env) (options : CmdOptions) (remUrl : string).

Local Abbreviation pass := (syncPass env options remUrl).
Local Abbreviation loop fuel := (restartSync fuel env options remUrl).

Lemma pass_count_startSync rc j :
  countEv isStartSync (passTrace (pass rc j)) =
  if passIsFatal env rc options then O else 1%nat.
Proof. count_pass. by destruct (readSelectiveSyncList env rc options).1. Qed.

Lemma pass_count_journalOpen rc j :
  countEv isJournalOpen (passTrace (pass rc j)) =
  if passIsFatal env rc options then O else 1%nat.
Proof. count_pass. by destruct (readSelectiveSyncList env rc options).1. Qed.

Lemma pass_count_fixup rc j :
  countEv isSelectiveSyncFixup (passTrace (pass rc j)) =
  if passIsFatal env rc options then O
  else match (readSelectiveSyncList env rc options).1 with
       | [] => O
       | _ :: _ => 1%nat
       end.
Proof. count_pass. by destruct (readSelectiveSyncList env rc options).1. Qed.

Lemma pass_count_credentials rc j :
  countEv isCredentials (passTrace (pass rc j)) = O.
Proof. count_pass; by destruct (readSelectiveSyncList env rc options).1. Qed.

Lemma pass_count_restart rc j :
  countEv isRestart (passTrace (pass rc j)) = O.
Proof. count_pass; by destruct (readSelectiveSyncList env rc options).1. Qed.

Lemma pass_count_warning rc j :
  countEv isWarning (passTrace (pass rc j)) = O.
Proof. count_pass; by destruct (readSelectiveSyncList env rc options).1. Qed.

(** What holds of the trace so far and survives a pass, a restart and the
    warning holds of the trace of the whole loop. *)
Lemma restartSync_invariant (Q : list Event → Prop) :
  (∀ tr rc j, Q tr → Q (tr ++ passTrace (pass rc j))) →
  (∀ tr rc, Q tr → Q (tr ++ [EvRestart rc])) →
  (∀ tr rc, Q tr → Q (tr ++ [EvWarning rc])) →
  ∀ fuel rc j tr r, Q tr → loop fuel rc j tr = Some r → Q (trace r).
Proof.
  intros Hpass Hrestart Hwarn.
  induction fuel as [|fuel IH]; intros rc j tr r HQ; cbn [restartSync];
    specialize (Hpass tr rc j HQ);
    destruct (pass rc j) as [tr'|j' another tr']; cbn [passTrace] in Hpass;
    try (intros [= <-]; exact Hpass);
    destruct another; try (intros [= <-]; exact Hpass);
    destruct (rc <? restartTimes options);
    try discriminate;
    try (intros [= <-]; cbn [trace]; rewrite app_assoc; by apply Hwarn).
  rewrite app_assoc. apply IH. by apply Hrestart.
Qed.

(** The loop ends: [restartTimes - restartCount] jumps are all it can make. *)
Lemma restartSync_total fuel rc j tr :
  (Z.to_nat (restartTimes options - rc) ≤ fuel)%nat →
  is_Some (loop fuel rc j tr).
Proof.
  revert rc j tr. induction fuel as [|fuel IH]; intros rc j tr Hfuel;
    cbn [restartSync]; destruct (pass rc j) as [tr'|j' another tr']; try done;
    destruct another; try done;
    destruct (Z.ltb_spec rc (restartTimes options)); try done.
  - lia.
  - apply IH. lia.
Qed.

(** An engine that wants another pass every time, and exclude lists that
    never stop the run: the loop makes every restart it is allowed, then
    warns and returns 0. *)
Lemma restartSync_exhausts :
  (∀ rc, passIsFatal env rc options = false) →
  (∀ rc j, (env_engine env rc j).2 = true) →
  ∀ (n fuel : nat) rc j tr,
    restartTimes options - rc = Z.of_nat n → (n ≤ fuel)%nat →
    ∃ r, loop fuel rc j tr = Some r ∧
         outcome r = Returned 0 ∧
         countEv isStartSync (trace r) = (countEv isStartSync tr + S n)%nat ∧
         countEv isRestart (trace r) = (countEv isRestart tr + n)%nat ∧
         countEv isWarning (trace r) = (countEv isWarning tr + 1)%nat ∧
         last (trace r) = Some (EvWarning (restartTimes options)).
Proof.
  intros Hfatal Hanother. induction n as [|n IH]; intros fuel rc j tr Hn Hfuel.
  - assert (Hlt : (rc <? restartTimes options) = false) by (apply Z.ltb_ge; lia).
    assert (Hrc : rc = restartTimes options) by lia.
    pose proof (pass_count_startSync rc j) as Hss.
    pose proof (pass_count_restart rc j) as Hre.
    pose proof (pass_count_warning rc j) as Hwa.
    assert (Hloop : ∃ j' tr', pass rc j = PassFinished j' true tr').
    { rewrite syncPass_unfold. cbv zeta. rewrite Hfatal, Hanother. eauto. }
    destruct Hloop as (j' & tr' & Hp). rewrite Hp, Hfatal in *. cbn [passTrace] in *.
    exists {| outcome := Returned 0; trace := tr ++ tr' ++ [EvWarning rc];
              journal := j' |}.
    split; [destruct fuel; cbn [restartSync]; by rewrite Hp, Hlt|].
    cbn [outcome trace]. rewrite !countEv_app, Hss, Hre, Hwa.
    repeat split; try (cbn; lia).
    by rewrite app_assoc, last_snoc, Hrc.
  - destruct fuel as [|fuel]; [lia|].
    assert (Hlt : (rc <? restartTimes options) = true) by (apply Z.ltb_lt; lia).
    pose proof (pass_count_startSync rc j) as Hss.
    pose proof (pass_count_restart rc j) as Hre.
    pose proof (pass_count_warning rc j) as Hwa.
    assert (Hloop : ∃ j' tr', pass rc j = PassFinished j' true tr').
    { rewrite syncPass_unfold. cbv zeta. rewrite Hfatal, Hanother. eauto. }
    destruct Hloop as (j' & tr' & Hp). rewrite Hp, Hfatal in *. cbn [passTrace] in *.
    destruct (IH fuel (rc + 1) j' (tr ++ tr' ++ [EvRestart (rc + 1)]))
      as (r & Hr & Hout & Hss' & Hre' & Hwa' & Hlast); [lia|lia|].
    exists r. split; [cbn [restartSync]; by rewrite Hp, Hlt|].
    rewrite !countEv_app, Hss in Hss'. rewrite !countEv_app, Hre in Hre'.
    rewrite !countEv_app, Hwa in Hwa'. cbn in Hss', Hre', Hwa'.
    repeat split; try done; lia.
Qed.

Lemma pass_count_create rc j :
  countEv isCsyncCreate (passTrace (pass rc j)) = 1%nat.
Proof. count_pass; by destruct (readSelectiveSyncList env rc options).1. Qed.

Lemma pass_count_logLevel rc j :
  countEv isLogLevel (passTrace (pass rc j)) = 1%nat.
Proof. count_pass; by destruct (readSelectiveSyncList env rc options).1. Qed.

Lemma pass_count_ignoreHidden rc j :
  countEv isIgnoreHiddenFiles (passTrace (pass rc j)) = 1%nat.
Proof. count_pass; by destruct (readSelectiveSyncList env rc options).1. Qed.

(** The events of a pass, written out. *)
Lemma syncPass_events rc j :
  pass rc j =
  let start := passBegin env options (source_dir options) remUrl (silent options)
                         (ignoreHiddenFiles options) rc in
  if passIsFatal env rc options then
    PassFatal
      (start ++ [EvFatal "Cannot load system exclude list or list supplied via --exclude"])
  else
    let result :=
      env_engine env rc (journalAfterFixup j (readSelectiveSyncList env rc options).1) in
    PassFinished result.1 result.2
                 (start ++ passEnd env options (source_dir options) rc).
Proof.
  rewrite syncPass_unfold. cbv zeta. unfold passBegin, passEnd, contextTrace, setupTrace.
  destruct (passIsFatal env rc options); f_equal; cbn [app]; by rewrite <- !app_assoc.
Qed.

Local Opaque passBegin passEnd.

(** A run is a row of whole passes, each followed by its restart, and a last
    pass that is stopped, finished, or finished with the warning. *)
Lemma restartSync_shape fuel :
  ∀ rc j tr r,
    loop fuel rc j tr = Some r →
    let start := passBegin env options (source_dir options) remUrl (silent options)
                           (ignoreHiddenFiles options) in
    let finish := passEnd env options (source_dir options) in
    ∃ (n : nat) (ending : list Event),
      trace r = tr ++ restartedPasses (λ i, start i ++ finish i) rc n ++
                start (rc + Z.of_nat n) ++ ending ∧
      lastPassEnding (finish (rc + Z.of_nat n)) (rc + Z.of_nat n) ending.
Proof.
  cbv zeta.
  assert (Hlast : ∀ rc tr r ending,
            trace r = tr ++ passBegin env options (source_dir options) remUrl
                             (silent options) (ignoreHiddenFiles options) rc ++ ending →
            lastPassEnding (passEnd env options (source_dir options) rc) rc ending →
            ∃ (n : nat) (ending : list Event),
              trace r = tr ++ restartedPasses
                          (λ i, passBegin env options (source_dir options) remUrl
                                  (silent options) (ignoreHiddenFiles options) i ++
                                passEnd env options (source_dir options) i) rc n ++
                        passBegin env options (source_dir options) remUrl
                          (silent options) (ignoreHiddenFiles options)
                          (rc + Z.of_nat n) ++ ending ∧
              lastPassEnding (passEnd env options (source_dir options) (rc + Z.of_nat n))
                             (rc + Z.of_nat n) ending).
  { intros rc tr r ending Htrace Hending. exists O, ending.
    change (Z.of_nat 0) with 0. rewrite Z.add_0_r. by split. }
  induction fuel as [|fuel IH]; intros rc j tr r; cbn [restartSync];
    rewrite syncPass_events; cbv zeta;
    destruct (passIsFatal env rc options).
  - intros [= <-]. eapply Hlast; [reflexivity|by left].
  - cbn [fst snd]. destruct (env_engine env rc _) as [j' another]. cbn [fst snd].
    destruct another; [destruct (rc <? restartTimes options); [discriminate|]|].
    + intros [= <-].
      apply (Hlast rc tr _ (passEnd env options (source_dir options) rc ++ [EvWarning rc]));
        [|by right; right].
      cbn [trace]. rewrite <- !app_assoc. reflexivity.
    + intros [= <-]. eapply Hlast; [reflexivity|by right; left].
  - intros [= <-]. eapply Hlast; [reflexivity|by left].
  - cbn [fst snd]. destruct (env_engine env rc _) as [j' another]. cbn [fst snd].
    destruct another; [destruct (rc <? restartTimes options)|].
    + intros Hr. apply IH in Hr as (n & ending & Htrace & Hending).
      exists (S n), ending.
      replace (rc + Z.of_nat (S n)) with (rc + 1 + Z.of_nat n) by lia.
      split; [|exact Hending]. rewrite Htrace. cbn [restartedPasses].
      rewrite <- !app_assoc. reflexivity.
    + intros [= <-].
      apply (Hlast rc tr _ (passEnd env options (source_dir options) rc ++ [EvWarning rc]));
        [|by right; right].
      cbn [trace]. rewrite <- !app_assoc. reflexivity.
    + intros [= <-]. eapply Hlast; [reflexivity|by right; left].
Qed.

Local Transparent passBegin passEnd.

(** Contexts are created once at the start and once after every restart. *)
Lemma restartSync_creates fuel :
  ∀ rc j tr r,
    loop fuel rc j tr = Some r →
    (countEv isCsyncCreate (trace r) + countEv isRestart tr =
     countEv isCsyncCreate tr + countEv isRestart (trace r) + 1)%nat.
Proof.
  induction fuel as [|fuel IH]; intros rc j tr r; cbn [restartSync];
    pose proof (pass_count_create rc j) as Hcr;
    pose proof (pass_count_restart rc j) as Hre;
    destruct (pass rc j) as [tr1|j1 another tr1]; cbn [passTrace] in *;
    try (intros [= <-]; cbn [trace]; rewrite !countEv_app, Hcr, Hre; lia);
    destruct another;
    try (intros [= <-]; cbn [trace]; rewrite !countEv_app, Hcr, Hre; lia);
    destruct (rc <? restartTimes options);
    try discriminate;
    try (intros [= <-]; cbn [trace]; rewrite !countEv_app, Hcr, Hre; cbn; lia).
  intros Hr. apply IH in Hr. rewrite !countEv_app, Hcr, Hre in Hr. cbn in Hr. lia.
Qed.

End Loop.

(** ** [main] *)

Section Main.

Variable env : Env.

(** Lines 295-312 touch the target URL and nothing else. *)
Lemma fixTargetUrl_frame (o : CmdOptions) :
  fixTargetUrl env o = set_target_url (target_url (fixTargetUrl env o)) o.
Proof.
  unfold fixTargetUrl.
  repeat match goal with |- context [if ?b then _ else _] => destruct b end;
    by destruct o.
Qed.

Lemma fixTargetUrl_source_dir (o : CmdOptions) :
  source_dir (fixTargetUrl env o) = source_dir o.
Proof. by rewrite fixTargetUrl_frame. Qed.

Lemma fixTargetUrl_restartTimes (o : CmdOptions) :
  restartTimes (fixTargetUrl env o) = restartTimes o.
Proof. by rewrite fixTargetUrl_frame. Qed.

Lemma passIsFatal_fixTargetUrl (rc : Z) (o : CmdOptions) :
  passIsFatal env rc (fixTargetUrl env o) = passIsFatal env rc o.
Proof. by rewrite fixTargetUrl_frame. Qed.

Lemma readSelectiveSyncList_fixTargetUrl (rc : Z) (o : CmdOptions) :
  readSelectiveSyncList env rc (fixTargetUrl env o) = readSelectiveSyncList env rc o.
Proof. by rewrite fixTargetUrl_frame. Qed.

(** The trace [main] has built when it reaches [restart_sync:]. *)
Lemma mainFrom_unfold (o : CmdOptions) :
  env_accountCreated env = true →
  mainFrom env o =
  let o' := fixTargetUrl env o in
  let c := resolveCredentials env o' in
  restartSync (Z.to_nat (restartTimes o)) env o' (target_url o') 0 (env_journal env)
              (c.2 ++ [EvCredentials c.1.1.1 c.1.1.2 (trustSSL o')]).
Proof.
  intros Hacc. unfold mainFrom. rewrite Hacc. cbn [negb]. cbv zeta.
  destruct (resolveCredentials env (fixTargetUrl env o)) as [[[u p] stdin] tr].
  by rewrite fixTargetUrl_restartTimes.
Qed.

Lemma credentialsFromPrompt_trace (p : Event → bool) interactive stdin prior :
  p EvPromptUser = false → (∀ u, p (EvQueryPassword u) = false) →
  countEv p (credentialsFromPrompt interactive stdin prior).2 = O.
Proof.
  intros H1 H2. unfold credentialsFromPrompt.
  destruct interactive; [|done].
  destruct (QString.isEmpty prior.1); destruct (getline stdin) as [s stdin'];
    destruct (QString.isEmpty prior.2);
    repeat match goal with |- context [getline ?x] => destruct (getline x) end;
    cbn; unfold countEv; cbn; rewrite ?H1, ?H2; done.
Qed.

Lemma mainFrom_total (o : CmdOptions) : is_Some (mainFrom env o).
Proof.
  destruct (env_accountCreated env) eqn:Hacc.
  - rewrite mainFrom_unfold by done. cbv zeta.
    apply restartSync_total. rewrite fixTargetUrl_restartTimes. lia.
  - unfold mainFrom. rewrite Hacc. done.
Qed.

(** [main] always comes to an end. *)
Lemma main_total (args : list string) : is_Some (main env args).
Proof.
  unfold main. destruct (parseOptions _ _ _); try done. apply mainFrom_total.
Qed.

Lemma main_parsed (args : list string) (o : CmdOptions) :
  parseOptions (env_fileExists env) args initialOptions = Parsed o →
  main env args = mainFrom env o.
Proof. intros H. unfold main. by rewrite H. Qed.

End Main.

(** C6: with [restartTimes] at 3, an engine that reports another sync needed
    after every pass, and exclude lists that do not stop the run, [main] starts
    the engine four times, restarts three times, warns once, at the very end,
    and returns 0. *)
Theorem retry_bound_three (env : Env) (args : list string) (o : CmdOptions) :
  parseOptions (env_fileExists env) args initialOptions = Parsed o →
  restartTimes o = 3 →
  env_accountCreated env = true →
  (∀ rc, passIsFatal env rc o = false) →
  (∀ rc j, (env_engine env rc j).2 = true) →
  ∃ r, main env args = Some r ∧
       outcome r = Returned 0 ∧
       countEv isStartSync (trace r) = 4%nat ∧
       countEv isRestart (trace r) = 3%nat ∧
       countEv isWarning (trace r) = 1%nat ∧
       last (trace r) = Some (EvWarning 3).
Proof.
  intros Hparse Hthree Hacc Hfatal Hanother.
  rewrite (main_parsed env args o Hparse), mainFrom_unfold by done. cbv zeta.
  set (o' := fixTargetUrl env o). set (c := resolveCredentials env o').
  destruct (restartSync_exhausts env o' (target_url o')) with
    (n := 3%nat) (fuel := Z.to_nat (restartTimes o)) (rc := 0)
    (j := env_journal env)
    (tr := c.2 ++ [EvCredentials c.1.1.1 c.1.1.2 (trustSSL o')])
    as (r & Hr & Hout & Hss & Hre & Hwa & Hlast).
  - intros rc. unfold o'. by rewrite passIsFatal_fixTargetUrl.
  - exact Hanother.
  - unfold o'. rewrite fixTargetUrl_restartTimes, Hthree. reflexivity.
  - rewrite Hthree. reflexivity.
  - exists r. split; [exact Hr|]. split; [exact Hout|].
    unfold o' in Hlast. rewrite fixTargetUrl_restartTimes, Hthree in Hlast.
    rewrite countEv_app in Hss, Hre, Hwa.
    unfold c, resolveCredentials in Hss, Hre, Hwa.
    rewrite credentialsFromPrompt_trace in Hss, Hre, Hwa by done.
    repeat split; try done; cbn in *; lia.
Qed.

Lemma retry_bound_three_witness :
  ∃ r, main (sampleEnv true) sampleArgs = Some r ∧
       outcome r = Returned 0 ∧
       countEv isStartSync (trace r) = 4%nat ∧
       countEv isRestart (trace r) = 3%nat ∧
       countEv isWarning (trace r) = 1%nat ∧
       last (trace r) = Some (EvWarning 3).
Proof.
  eapply (retry_bound_three (sampleEnv true) sampleArgs).
  - vm_compute. reflexivity.
  - reflexivity.
  - reflexivity.
  - intros rc. reflexivity.
  - intros rc j. reflexivity.
Defined.

(** ** What a restart does again *)

Section Restart.

Variable env : Env.

(** Invariants of the trace, carried from [restart_sync:] to the end. *)
Lemma run_counts (o : CmdOptions) (remUrl : string) fuel rc j tr r :
  restartSync fuel env o remUrl rc j tr = Some r →
  countEv isCredentials (trace r) = countEv isCredentials tr ∧
  (countEv isJournalOpen tr = countEv isStartSync tr →
   countEv isJournalOpen (trace r) = countEv isStartSync (trace r)) ∧
  (countEv isSelectiveSyncFixup tr ≤ countEv isStartSync tr →
   countEv isSelectiveSyncFixup (trace r) ≤ countEv isStartSync (trace r))%nat ∧
  ((∀ rc', (readSelectiveSyncList env rc' o).1 ≠ []) →
   countEv isSelectiveSyncFixup tr = countEv isStartSync tr →
   countEv isSelectiveSyncFixup (trace r) = countEv isStartSync (trace r)).
Proof.
  intros Hr. repeat split.
  - revert Hr.
    apply (restartSync_invariant env o remUrl
             (λ t, countEv isCredentials t = countEv isCredentials tr));
      [| | |done]; intros t; intros; rewrite countEv_app, ?pass_count_credentials;
      cbn; lia.
  - intros H0. revert Hr.
    apply (restartSync_invariant env o remUrl
             (λ t, countEv isJournalOpen t = countEv isStartSync t));
      [| | |done]; intros t; intros;
      rewrite !countEv_app, ?pass_count_journalOpen, ?pass_count_startSync;
      cbn; lia.
  - intros H0. revert Hr.
    apply (restartSync_invariant env o remUrl
             (λ t, countEv isSelectiveSyncFixup t ≤ countEv isStartSync t)%nat);
      [| | |done]; intros t; intros;
      rewrite !countEv_app, ?pass_count_fixup, ?pass_count_startSync;
      [|cbn; lia..].
    destruct (passIsFatal env _ o); [lia|].
    destruct (readSelectiveSyncList env _ o).1; lia.
  - intros Hne H0. revert Hr.
    apply (restartSync_invariant env o remUrl
             (λ t, countEv isSelectiveSyncFixup t = countEv isStartSync t));
      [| | |done]; intros t; intros;
      rewrite !countEv_app, ?pass_count_fixup, ?pass_count_startSync;
      [|cbn; lia..].
    destruct (passIsFatal env _ o); [lia|].
    match goal with |- context [readSelectiveSyncList env ?x o] =>
      specialize (Hne x); destruct (readSelectiveSyncList env x o).1 end;
      [done|lia].
Qed.

Lemma pass_sameTargets (o : CmdOptions) (remUrl : string) rc j :
  Forall (sameTargets (source_dir o) remUrl) (passTrace (syncPass env o remUrl rc j)).
Proof.
  rewrite syncPass_unfold. cbv zeta.
  assert (Hsetup : Forall (sameTargets (source_dir o) remUrl) (setupTrace env rc o)).
  { eapply Forall_impl; [apply setupTrace_setup|]. by intros []. }
  destruct (passIsFatal env rc o); cbn [passTrace]; rewrite !Forall_app.
  - repeat split; try done; repeat constructor.
  - repeat split; try done; repeat constructor.
    by destruct (readSelectiveSyncList env rc o).1; repeat constructor.
Qed.

Lemma run_sameTargets (o : CmdOptions) (remUrl : string) fuel rc j tr r :
  Forall (sameTargets (source_dir o) remUrl) tr →
  restartSync fuel env o remUrl rc j tr = Some r →
  Forall (sameTargets (source_dir o) remUrl) (trace r).
Proof.
  apply (restartSync_invariant env o remUrl (Forall (sameTargets (source_dir o) remUrl)));
    intros t; intros; rewrite Forall_app; (split; [done|]).
  - apply pass_sameTargets.
  - by repeat constructor.
  - by repeat constructor.
Qed.

Lemma credentials_sameTargets (o : CmdOptions) (dir url : string) :
  let c := resolveCredentials env o in
  Forall (sameTargets dir url) (c.2 ++ [EvCredentials c.1.1.1 c.1.1.2 (trustSSL o)]).
Proof.
  cbv zeta. rewrite Forall_app. split; [|by repeat constructor].
  unfold resolveCredentials, credentialsFromPrompt.
  destruct (interactive o); [|constructor].
  repeat match goal with
         | |- context [if ?b then _ else _] => destruct b
         | |- context [getline ?x] => destruct (getline x)
         end; by repeat constructor.
Qed.

End Restart.

(** ** The shape of a run *)

Section RunShape.

Variable env : Env.

Lemma credentialsFromPrompt_prompts interactive stdin prior :
  Forall (λ e, isPrompt e = true) (credentialsFromPrompt interactive stdin prior).2.
Proof.
  unfold credentialsFromPrompt. destruct interactive; [|constructor].
  repeat match goal with
         | |- context [if ?b then _ else _] => destruct b
         | |- context [getline ?x] => destruct (getline x)
         end; by repeat constructor.
Qed.

(** The trace of a run that got as far as the account: the prompts, the
    credentials, the passes that were restarted, and the last pass. *)
Lemma mainFrom_shape (o : CmdOptions) (r : Run) :
  env_accountCreated env = true →
  mainFrom env o = Some r →
  let start := passBegin env o (source_dir o) (target_url (fixTargetUrl env o))
                         (silent o) (ignoreHiddenFiles o) in
  let finish := passEnd env o (source_dir o) in
  ∃ (n : nat) (prompts ending : list Event) (u p : string),
    trace r = prompts ++ [EvCredentials u p (trustSSL o)] ++
              restartedPasses (λ i, start i ++ finish i) 0 n ++
              start (Z.of_nat n) ++ ending ∧
    Forall (λ e, isPrompt e = true) prompts ∧
    lastPassEnding (finish (Z.of_nat n)) (Z.of_nat n) ending.
Proof.
  intros Hacc. rewrite mainFrom_unfold by done. cbv zeta. intros Hr.
  apply restartSync_shape in Hr. cbv zeta in Hr.
  destruct Hr as (n & ending & Htrace & Hending).
  rewrite Z.add_0_l in Htrace, Hending.
  set (url := target_url (fixTargetUrl env o)) in *.
  set (c := resolveCredentials env (fixTargetUrl env o)) in *.
  rewrite (fixTargetUrl_frame env o) in Htrace, Hending.
  exists n, c.2, ending, c.1.1.1, c.1.1.2.
  split; [rewrite Htrace; by rewrite <- app_assoc|].
  split; [apply credentialsFromPrompt_prompts | exact Hending].
Qed.

Lemma restartedPasses_count (p : Event → bool) (f : Z → list Event) (k : nat) :
  (∀ i, countEv p (f i) = k) → (∀ x, p (EvRestart x) = false) →
  ∀ n rc, countEv p (restartedPasses f rc n) = (n * k)%nat.
Proof.
  intros Hf Hre. induction n as [|n IH]; intros rc; [done|].
  cbn [restartedPasses]. rewrite !countEv_app, Hf, IH.
  assert (countEv p [EvRestart (rc + 1)] = O) as ->; [|lia].
  unfold countEv. cbn [List.filter]. by rewrite Hre.
Qed.

(** In a trace of that shape, a kind of event that the three steps at the
    head of a pass emit once, and nothing else emits, occurs once a pass. *)
Lemma shape_count (p : Event → bool) (o : CmdOptions) (dir url : string) (s h t : bool)
    (n : nat) (prompts ending : list Event) (u pw : string) (tr : list Event) :
  (∀ d v l b, countEv p [EvCsyncCreate d v; EvLogLevel l; EvIgnoreHiddenFiles b] = 1%nat) →
  (∀ e, isCsyncCreate e = false → isLogLevel e = false →
        isIgnoreHiddenFiles e = false → p e = false) →
  tr = prompts ++ [EvCredentials u pw t] ++
       restartedPasses (λ i, passBegin env o dir url s h i ++ passEnd env o dir i) 0 n ++
       passBegin env o dir url s h (Z.of_nat n) ++ ending →
  Forall (λ e, isPrompt e = true) prompts →
  lastPassEnding (passEnd env o dir (Z.of_nat n)) (Z.of_nat n) ending →
  countEv p tr = S n.
Proof.
  intros Hhead Hother -> Hprompts Hending.
  assert (Hbegin : ∀ i, countEv p (passBegin env o dir url s h i) = 1%nat).
  { intros i.
    change (passBegin env o dir url s h i)
      with ([EvCsyncCreate dir url; EvLogLevel (if s then 1 else 11);
             EvIgnoreHiddenFiles h] ++ setupTrace env i o).
    rewrite countEv_app, Hhead, countEv_setupTrace; [done|].
    intros [] He; try discriminate He; by apply Hother. }
  assert (Hend : ∀ i, countEv p (passEnd env o dir i) = O).
  { intros i. unfold passEnd. apply countEv_none.
    destruct (readSelectiveSyncList env i o).1; repeat constructor; by apply Hother. }
  assert (Hprompt : countEv p prompts = O).
  { apply countEv_none. eapply Forall_impl; [exact Hprompts|].
    intros [] He; try discriminate He; by apply Hother. }
  assert (Hlast : countEv p ending = O).
  { destruct Hending as [-> | [-> | ->]]; rewrite ?countEv_app, ?Hend; [|done|];
      unfold countEv; cbn [List.filter]; by rewrite Hother. }
  rewrite !countEv_app, Hprompt, Hbegin, Hlast.
  rewrite (restartedPasses_count p _ 1%nat).
  - assert (countEv p [EvCredentials u pw t] = O) as ->; [|lia].
    unfold countEv. cbn [List.filter]. by rewrite Hother.
  - intros i. by rewrite countEv_app, Hbegin, Hend.
  - intros x. by apply Hother.
Qed.

End RunShape.

(** C4, as the code has it: credentials are resolved once, before
    [restart_sync:]; everything after the label runs again on every restart,
    from the same options.  The trace of a run is the prompts and the
    credentials, then one whole pass for every restart made, then the last
    pass; every pass creates the context for the same directory and URL, sets
    the log level and the hidden-file policy, sets up the proxy, loads the
    exclude lists and reads the file of unsynced folders again, and, unless
    it is stopped there, opens the journal, calls [selectiveSyncFixup] with
    the list read in this pass when that list is not empty, and starts the
    engine. *)
Theorem restart_repeats_whole_pass (env : Env) (o : CmdOptions) (r : Run) :
  env_accountCreated env = true →
  mainFrom env o = Some r →
  countEv isCredentials (trace r) = 1%nat ∧
  countEv isJournalOpen (trace r) = countEv isStartSync (trace r) ∧
  (countEv isSelectiveSyncFixup (trace r) ≤ countEv isStartSync (trace r))%nat ∧
  ((∀ rc, (readSelectiveSyncList env rc o).1 ≠ []) →
   countEv isSelectiveSyncFixup (trace r) = countEv isStartSync (trace r)) ∧
  Forall (sameTargets (source_dir o) (target_url (fixTargetUrl env o))) (trace r) ∧
  countEv isCsyncCreate (trace r) = S (countEv isRestart (trace r)) ∧
  countEv isLogLevel (trace r) = countEv isCsyncCreate (trace r) ∧
  countEv isIgnoreHiddenFiles (trace r) = countEv isCsyncCreate (trace r) ∧
  ∃ (n : nat) (prompts ending : list Event) (u p : string),
    trace r =
      prompts ++ [EvCredentials u p (trustSSL o)] ++
      restartedPasses
        (λ rc, passBegin env o (source_dir o) (target_url (fixTargetUrl env o))
                 (silent o) (ignoreHiddenFiles o) rc ++
               passEnd env o (source_dir o) rc) 0 n ++
      passBegin env o (source_dir o) (target_url (fixTargetUrl env o))
        (silent o) (ignoreHiddenFiles o) (Z.of_nat n) ++
      ending ∧
    Forall (λ e, isPrompt e = true) prompts ∧
    lastPassEnding (passEnd env o (source_dir o) (Z.of_nat n)) (Z.of_nat n) ending.
Proof.
  intros Hacc Hmain.
  destruct (mainFrom_shape env o r Hacc Hmain)
    as (n & prompts & ending & u & p & Htrace & Hprompts & Hending).
  assert (Hcount : ∀ q,
            (∀ d v l b, countEv q [EvCsyncCreate d v; EvLogLevel l; EvIgnoreHiddenFiles b]
                        = 1%nat) →
            (∀ e, isCsyncCreate e = false → isLogLevel e = false →
                  isIgnoreHiddenFiles e = false → q e = false) →
            countEv q (trace r) = S n).
  { intros q H1 H2. by eapply (shape_count env q); [| |exact Htrace| |]. }
  assert (Hcreate : countEv isCsyncCreate (trace r) = S n).
  { apply Hcount; [done|]. by intros []. }
  assert (Hlevel : countEv isLogLevel (trace r) = S n).
  { apply Hcount; [done|]. by intros []. }
  assert (Hhidden : countEv isIgnoreHiddenFiles (trace r) = S n).
  { apply Hcount; [done|]. by intros []. }
  revert Hmain. rewrite mainFrom_unfold by done. cbv zeta. intros Hr.
  set (o' := fixTargetUrl env o) in *. set (c := resolveCredentials env o') in *.
  destruct (run_counts env _ _ _ _ _ _ _ Hr) as (Hc & Hjo & Hle & Heq).
  pose proof (restartSync_creates env _ _ _ _ _ _ _ Hr) as Hcr.
  assert (Hz : ∀ q, q EvPromptUser = false → (∀ v, q (EvQueryPassword v) = false) →
               countEv q c.2 = O).
  { intros q H1 H2. unfold c, resolveCredentials.
    by apply credentialsFromPrompt_trace. }
  rewrite countEv_app, Hz in Hc by done.
  rewrite !countEv_app, !Hz in Hjo, Hle, Heq, Hcr by done.
  split; [exact Hc|]. split; [by apply Hjo|]. split; [apply Hle; cbn; lia|].
  split.
  { intros Hne. apply Heq; [|done].
    intros rc. unfold o'. rewrite readSelectiveSyncList_fixTargetUrl. apply Hne. }
  split.
  { rewrite <- (fixTargetUrl_source_dir env o). fold o'.
    eapply run_sameTargets; [|exact Hr]. apply credentials_sameTargets. }
  split; [cbn in Hcr; lia|].
  split; [by rewrite Hlevel, Hcreate|]. split; [by rewrite Hhidden, Hcreate|].
  by exists n, prompts, ending, u, p.
Qed.

Lemma restart_repeats_whole_pass_witness :
  ∃ r, mainFrom (sampleEnv true) sampleOptions = Some r ∧
       countEv isCredentials (trace r) = 1%nat ∧
       countEv isJournalOpen (trace r) = countEv isStartSync (trace r) ∧
       countEv isSelectiveSyncFixup (trace r) = countEv isStartSync (trace r) ∧
       countEv isCsyncCreate (trace r) = S (countEv isRestart (trace r)) ∧
       countEv isLogLevel (trace r) = countEv isCsyncCreate (trace r) ∧
       countEv isIgnoreHiddenFiles (trace r) = countEv isCsyncCreate (trace r).
Proof.
  destruct (mainFrom_total (sampleEnv true) sampleOptions) as [r Hr].
  exists r. split; [exact Hr|].
  destruct (restart_repeats_whole_pass (sampleEnv true) sampleOptions r)
    as (H1 & H2 & _ & H4 & _ & H6 & H7 & H8 & _).
  - reflexivity.
  - exact Hr.
  - split; [exact H1|]. split; [exact H2|].
    split; [apply H4; intros rc; discriminate|].
    split; [exact H6|]. split; [exact H7|exact H8].
Defined.

(** C4 as the specification words it fails: in a run of four passes the
    reconciliation is invoked four times and the journal is opened four
    times, not once. *)
Lemma restart_redoes_fixup_and_journal :
  ∃ r, main (sampleEnv true) sampleArgsUnsynced = Some r ∧
       countEv isCsyncCreate (trace r) = 4%nat ∧
       countEv isStartSync (trace r) = 4%nat ∧
       countEv isSelectiveSyncFixup (trace r) = 4%nat ∧
       countEv isJournalOpen (trace r) = 4%nat ∧
       ¬ (countEv isSelectiveSyncFixup (trace r) ≤ 1)%nat ∧
       ¬ (countEv isJournalOpen (trace r) ≤ 1)%nat.
Proof.
  eexists. split; [vm_compute; reflexivity|].
  vm_compute. repeat split; lia.
Qed.

(** C7, as the code has it: the source directory every later step sees is
    the one [parseOptions] produced; the target URL they see is the parsed one
    after lines 295-312 have given it a trailing slash, the dav path and the
    owncloud scheme.  That URL is fixed before the first pass and no other
    field of the options changes after parsing. *)
Theorem options_seen_after_parsing (env : Env) (args : list string)
    (o : CmdOptions) (r : Run) :
  parseOptions (env_fileExists env) args initialOptions = Parsed o →
  main env args = Some r →
  fixTargetUrl env o = set_target_url (target_url (fixTargetUrl env o)) o ∧
  ∀ e, e ∈ trace r →
    match e with
    | EvCsyncCreate s u => s = source_dir o ∧ u = target_url (fixTargetUrl env o)
    | EvJournalOpen d => d = source_dir o
    | _ => True
    end.
Proof.
  intros Hparse. rewrite (main_parsed env args o Hparse). intros Hr.
  split; [apply fixTargetUrl_frame|].
  apply Forall_forall.
  change (Forall (sameTargets (source_dir o) (target_url (fixTargetUrl env o))) (trace r)).
  destruct (env_accountCreated env) eqn:Hacc.
  - rewrite mainFrom_unfold in Hr by done. cbv zeta in Hr.
    rewrite <- (fixTargetUrl_source_dir env o).
    eapply run_sameTargets; [|exact Hr]. apply credentials_sameTargets.
  - unfold mainFrom in Hr. rewrite Hacc in Hr. cbn [negb] in Hr.
    injection Hr as <-. by repeat constructor.
Qed.

Lemma options_seen_after_parsing_witness :
  ∃ o r, parseOptions (env_fileExists (sampleEnv false)) sampleArgs initialOptions = Parsed o ∧
         main (sampleEnv false) sampleArgs = Some r ∧
         source_dir o = "/tmp/sync/" ∧
         ∀ e, e ∈ trace r →
           match e with
           | EvCsyncCreate s u =>
               s = source_dir o ∧ u = target_url (fixTargetUrl (sampleEnv false) o)
           | EvJournalOpen d => d = source_dir o
           | _ => True
           end.
Proof.
  destruct (main_total (sampleEnv false) sampleArgs) as [r Hr].
  eexists _, r. split; [vm_compute; reflexivity|]. split; [exact Hr|].
  split; [reflexivity|].
  eapply (options_seen_after_parsing (sampleEnv false) sampleArgs); [|exact Hr].
  vm_compute. reflexivity.
Defined.

(** C7 as the specification words it fails: the URL given to [csync_create]
    is not the URL that [parseOptions] produced. *)
Lemma target_url_changed_after_parsing :
  ∃ o r, parseOptions (env_fileExists (sampleEnv false)) sampleArgs initialOptions = Parsed o ∧
         main (sampleEnv false) sampleArgs = Some r ∧
         target_url o = "http://example.com" ∧
         trace r !! 3%nat =
           Some (EvCsyncCreate "/tmp/sync/" "owncloud://example.com/remote.php/webdav/") ∧
         "owncloud://example.com/remote.php/webdav/" ≠ target_url o.
Proof.
  eexists _, _. split; [vm_compute; reflexivity|].
  split; [vm_compute; reflexivity|].
  repeat split. discriminate.
Qed.

(** ** Credentials from netrc *)

(** C1, as the code has it: with netrc enabled and the file parsed, user and
    password are both taken from the one pair [find] returns for the host,
    whatever the earlier stages held and whether or not the host has an entry;
    for a host without an entry that pair is the parser's fallback, so the
    earlier user and password are replaced, not kept.  Without a prompt the
    pair is the final result. *)
Theorem netrc_pair_overwrites (env : Env) (o : CmdOptions) (prior : LoginPair) :
  useNetrc o = true →
  netrc_parse (env_netrc env) = true →
  let host := env_urlHost env (target_url o) in
  credentialsFromNetrc (useNetrc o) (env_netrc env) host prior
    = netrc_find (env_netrc env) host ∧
  netrc_find (env_netrc env) host
    = match netrc_lookup (netrc_entries (env_netrc env)) host with
      | Some login => login
      | None => netrc_default (env_netrc env)
      end ∧
  (interactive o = false →
   resolveCredentials env o = (netrc_find (env_netrc env) host, env_stdin env, [])).
Proof.
  intros Hn Hp host. unfold resolveCredentials, credentialsFromNetrc.
  rewrite Hn, Hp. repeat split.
  - by destruct (netrc_find (env_netrc env) host).
  - intros ->. cbn. by destruct (netrc_find _ _).
Qed.

Lemma netrc_pair_overwrites_witness :
  credentialsFromNetrc (useNetrc netrcOptions) (env_netrc (sampleEnv false))
                       "example.com" ("alice", "secret")
  = netrc_find (env_netrc (sampleEnv false)) "example.com".
Proof.
  destruct (netrc_pair_overwrites (sampleEnv false) netrcOptions ("alice", "secret"))
    as (H & _).
  - reflexivity.
  - reflexivity.
  - exact H.
Defined.

(** C1 as the specification words it fails: the host has no entry in the
    netrc file, and the user and password given as options are gone. *)
Lemma netrc_miss_replaces_prior :
  let env := sampleEnv false in
  let host := env_urlHost env (target_url netrcOptions) in
  netrc_parse (env_netrc env) = true ∧
  netrc_lookup (netrc_entries (env_netrc env)) host = None ∧
  credentialsFromOptions env netrcOptions = ("alice", "secret") ∧
  credentialsFromNetrc (useNetrc netrcOptions) (env_netrc env) host
    (credentialsFromOptions env netrcOptions) = ("", "") ∧
  credentialsFromNetrc (useNetrc netrcOptions) (env_netrc env) host
    (credentialsFromOptions env netrcOptions) ≠ credentialsFromOptions env netrcOptions.
Proof. cbv zeta. repeat split. discriminate. Qed.

(** ** Exclude lists *)

Section ExcludeLists.

Variables (env : Env) (rc : Z) (o : CmdOptions).

(** The run stops at line 457 only when both lists were attempted and both
    return codes are non-zero. *)
Lemma passIsFatal_iff :
  passIsFatal env rc o = true ↔
  QString.isEmpty (env_excludeFileFromSystem env) = false ∧
  QString.isEmpty (exclude o) = false ∧
  env_csync_add_exclude_list env rc (env_excludeFileFromSystem env) ≠ 0 ∧
  env_csync_add_exclude_list env rc (exclude o) ≠ 0.
Proof.
  unfold passIsFatal, loadExcludeLists, excludeListsFatal.
  destruct (QString.isEmpty (env_excludeFileFromSystem env));
    destruct (QString.isEmpty (exclude o)); cbn [negb fst snd];
    rewrite andb_true_iff, !negb_true_iff, ?Z.eqb_neq; cbn; intuition congruence.
Qed.

(** One source alone never stops the run, loaded or not. *)
Lemma single_exclude_source_not_fatal :
  QString.isEmpty (env_excludeFileFromSystem env) = true ∨
  QString.isEmpty (exclude o) = true →
  passIsFatal env rc o = false.
Proof.
  intros H. apply not_true_is_false. rewrite passIsFatal_iff.
  intros (? & ? & _). destruct H; congruence.
Qed.

End ExcludeLists.

(** C2, at the failing input: no system exclude list, [--exclude] names a
    file that cannot be loaded ([csync_add_exclude_list] returns -1), and the
    run is not fatal: the engine is started and [main] returns 0 with no
    exclude list loaded. *)
Theorem single_failed_exclude_list_proceeds :
  ∃ r, main (failingExcludeEnv (-1)) excludeArgs = Some r ∧
       outcome r = Returned 0 ∧
       EvAddExcludeList "/no/such/file" (-1) ∈ trace r ∧
       countEv isStartSync (trace r) = 1%nat ∧
       passIsFatal (failingExcludeEnv (-1)) 0
                   (set_exclude "/no/such/file" sampleOptions) = false.
Proof.
  eexists. split; [vm_compute; reflexivity|].
  cbn [outcome trace]. repeat split.
  apply list_elem_of_In. vm_compute. tauto.
Qed.

(** ** Proxy *)

Section Split.

Variable sep : ascii.

Lemma append_cons (c : ascii) (a b : string) :
  String c a +:+ b = String c (a +:+ b).
Proof. reflexivity. Qed.

Lemma append_nil (b : string) : "" +:+ b = b.
Proof. reflexivity. Qed.

Lemma countChar_cons_0 (c : ascii) (s : string) :
  countChar sep (String c s) = O → Ascii.eqb c sep = false ∧ countChar sep s = O.
Proof. cbn [countChar]. destruct (Ascii.eqb c sep); [discriminate|]. by intros. Qed.

Lemma split_no_sep (s : string) :
  countChar sep s = O → QString.split sep s = [s].
Proof.
  induction s as [|c s IH]; [done|].
  intros [Hc Hs]%countChar_cons_0. cbn [QString.split]. by rewrite Hc, IH.
Qed.

Lemma split_app (a b : string) :
  countChar sep a = O →
  QString.split sep (a +:+ String sep b) = a :: QString.split sep b.
Proof.
  induction a as [|c a IH].
  - intros _. rewrite append_nil. cbn [QString.split]. by rewrite Ascii.eqb_refl.
  - intros [Hc Ha]%countChar_cons_0. rewrite append_cons. cbn [QString.split].
    by rewrite Hc, IH.
Qed.

(** One part more than there are separators. *)
Lemma length_split (s : string) :
  length (QString.split sep s) = S (countChar sep s).
Proof.
  induction s as [|c s IH]; [done|].
  cbn [QString.split countChar]. destruct (Ascii.eqb c sep).
  - cbn [length]. by rewrite IH.
  - destruct (QString.split sep s) as [|h t]; [discriminate IH|]. exact IH.
Qed.

End Split.

Lemma proxySetup_null (o : CmdOptions) :
  proxy o = None → proxySetup o = [EvProxyFromConfig].
Proof. intros H. unfold proxySetup. by rewrite H. Qed.

(** C5, as the code has it: an override made of a scheme, a host and a port
    with a colon after the first and after the second installs that host
    (without a leading double slash) as the application proxy, with the port
    that [toInt] reads from the third segment (0 when it is no number)
    converted to the 16-bit port of [QNetworkProxy], that is taken modulo
    65536, and turns the system configuration off; an override with another
    number of colons installs nothing and leaves the system configuration
    setting alone; in neither case is the proxy of the client configuration
    asked for: that happens for a null override only. *)
Theorem proxy_override (o : CmdOptions) (p : string) :
  proxy o = Some p →
  (∀ scheme host port,
     countChar ":" scheme = O → countChar ":" host = O → countChar ":" port = O →
     p = scheme +:+ ":" +:+ host +:+ ":" +:+ port →
     proxySetup o =
     [EvUseSystemConfiguration false;
      EvApplicationProxy
        (if QString.startsWith host "//" then QString.remove0 2 host else host)
        (quint16 (QString.toInt port))] ∧
     quint16 (QString.toInt port) = QString.toInt port mod 65536 ∧
     0 ≤ quint16 (QString.toInt port) < 65536) ∧
  (countChar ":" p ≠ 2%nat → proxySetup o = []) ∧
  countEv isProxyFromConfig (proxySetup o) = O.
Proof.
  intros Hp. unfold proxySetup. rewrite Hp. split; [|split].
  - intros scheme host port Hs Hh Hpt ->.
    change (scheme +:+ ":" +:+ host +:+ ":" +:+ port)
      with (scheme +:+ String ":" (host +:+ String ":" port)).
    rewrite (split_app ":" scheme) by done.
    rewrite (split_app ":" host) by done.
    rewrite (split_no_sep ":" port) by done.
    split; [reflexivity|]. split; [reflexivity|].
    unfold quint16. apply Z.mod_pos_bound. reflexivity.
  - intros Hn. rewrite length_split.
    destruct (Nat.eqb_spec (S (countChar ":" p)) 3); [lia|done].
  - by destruct (length (QString.split ":" p) =? 3)%nat.
Qed.

Lemma proxy_override_witness :
  proxySetup (set_proxy (Some "http://192.168.178.23:8080") sampleOptions) =
  [EvUseSystemConfiguration false; EvApplicationProxy "192.168.178.23" 8080].
Proof.
  destruct (proxy_override (set_proxy (Some "http://192.168.178.23:8080") sampleOptions)
              "http://192.168.178.23:8080") as (H & _).
  - reflexivity.
  - destruct (H "http" "//192.168.178.23" "8080") as [Hinstalled _];
      [reflexivity..|exact Hinstalled].
Defined.

(** A port outside 0..65535 does not reach the proxy as written: 70000 is
    installed as 4464 and -1 as 65535. *)
Lemma proxy_port_wraps :
  proxySetup (set_proxy (Some "http://proxy.example:70000") sampleOptions) =
    [EvUseSystemConfiguration false; EvApplicationProxy "proxy.example" 4464] ∧
  proxySetup (set_proxy (Some "http://proxy.example:-1") sampleOptions) =
    [EvUseSystemConfiguration false; EvApplicationProxy "proxy.example" 65535].
Proof. split; reflexivity. Qed.

(** C5 as the specification words it fails: an override that is not empty
    and has two segments installs no proxy, and the proxy of the client
    configuration is not set up either. *)
Lemma malformed_proxy_no_fallback :
  let o := set_proxy (Some "192.168.178.23:8080") sampleOptions in
  length (QString.split ":" "192.168.178.23:8080") = 2%nat ∧
  proxySetup o = [] ∧
  (EvProxyFromConfig ∉ proxySetup o) ∧
  proxySetup o ≠ [EvProxyFromConfig].
Proof.
  cbv zeta. repeat split.
  - intros H. vm_compute in H. by apply elem_of_nil in H.
  - discriminate.
Qed.

(** * Further properties *)

(** ** Option parsing *)

Section ParseLoop.

(** One turn of the loop, read through the option table: an unknown word
    ends in [help()]; a flag is assigned; a branch with an argument reads
    past the end when nothing follows, ends in [help()] when the next word
    starts with a dash, and assigns the next word otherwise. *)
Lemma parseLoop_step (option : string) (rest : list string) (o : CmdOptions) :
  parseLoop (option :: rest) o =
  match optionNamed option with
  | None => ExitHelp
  | Some n =>
      if takesArgument n then
        match rest with
        | [] => PeekPastEnd
        | next :: rest' =>
            if QString.startsWith next "-" then ExitHelp
            else parseLoop rest' (assignOption n next o)
        end
      else parseLoop rest (assignOption n "" o)
  end.
Proof.
  cbn [parseLoop]. unfold optionNamed.
  repeat
    (match goal with
     | |- context [String.eqb option ?name] =>
         destruct (String.eqb_spec option name) as [->|?]
     end;
     [ cbn; try reflexivity;
       destruct rest as [|next rest']; cbn; try reflexivity;
       destruct (QString.startsWith next "-"); reflexivity
     | cbn [orb takesValue] ]).
  reflexivity.
Qed.

(** Induction along the turns of the loop. *)
Lemma parseLoop_rect (P : list string → CmdOptions → ParseResult → Prop) :
  (∀ o, P [] o (Parsed o)) →
  (∀ w rest o, optionNamed w = None → P (w :: rest) o ExitHelp) →
  (∀ w n rest o,
     optionNamed w = Some n → takesArgument n = false →
     P rest (assignOption n "" o) (parseLoop rest (assignOption n "" o)) →
     P (w :: rest) o (parseLoop rest (assignOption n "" o))) →
  (∀ w n o, optionNamed w = Some n → takesArgument n = true → P [w] o PeekPastEnd) →
  (∀ w n next rest o,
     optionNamed w = Some n → takesArgument n = true →
     QString.startsWith next "-" = true → P (w :: next :: rest) o ExitHelp) →
  (∀ w n next rest o,
     optionNamed w = Some n → takesArgument n = true →
     QString.startsWith next "-" = false →
     P rest (assignOption n next o) (parseLoop rest (assignOption n next o)) →
     P (w :: next :: rest) o (parseLoop rest (assignOption n next o))) →
  ∀ l o, P l o (parseLoop l o).
Proof.
  intros Hnil Hunknown Hflag Hend Hdash Hvalue l.
  assert (H : ∀ k l, (length l ≤ k)%nat → ∀ o, P l o (parseLoop l o));
    [|by apply (H (length l))].
  clear l. induction k as [|k IH]; intros [|w rest] Hlen o; cbn in Hlen;
    try lia; try apply Hnil.
  rewrite parseLoop_step. destruct (optionNamed w) as [n|] eqn:Hw; [|by apply Hunknown].
  destruct (takesArgument n) eqn:Hn.
  - destruct rest as [|next rest']; [by eapply Hend|].
    destruct (QString.startsWith next "-") eqn:Hd; [by eapply Hdash|].
    apply Hvalue; try done. apply IH. cbn in Hlen. lia.
  - apply Hflag; try done. apply IH. lia.
Qed.

(** Every spelling in the option table starts with a dash. *)
Lemma optionNamed_dash (w : string) (n : OptionName) :
  optionNamed w = Some n → QString.startsWith w "-" = true.
Proof.
  unfold optionNamed.
  repeat
    (match goal with
     | |- context [String.eqb w ?name] =>
         destruct (String.eqb_spec w name) as [->|?]
     end; [reflexivity | cbn [orb]]).
  discriminate.
Qed.

(** No branch of the loop assigns the two positional arguments. *)
Lemma assignOption_positional (n : OptionName) (v : string) (o : CmdOptions) :
  source_dir (assignOption n v o) = source_dir o ∧
  target_url (assignOption n v o) = target_url o.
Proof. by destruct n. Qed.

Lemma assignOption_flag (n0 n : OptionName) (v : string) (o : CmdOptions) :
  takesArgument n0 = false →
  flagIsSet n0 (assignOption n v o) = flagIsSet n0 o || bool_decide (n = n0).
Proof.
  intros H0. destruct n0; try discriminate H0;
    destruct n; cbn; by rewrite ?orb_false_r, ?orb_true_r.
Qed.

Lemma parseLoop_positional (l : list string) (o o1 : CmdOptions) :
  parseLoop l o = Parsed o1 →
  source_dir o1 = source_dir o ∧ target_url o1 = target_url o.
Proof.
  revert o1. pattern l, o, (parseLoop l o). apply parseLoop_rect; clear l o;
    try discriminate.
  - by intros o o1 [= <-].
  - intros w n rest o _ _ IH o1 H1. destruct (IH o1 H1) as [-> ->].
    apply assignOption_positional.
  - intros w n next rest o _ _ _ IH o1 H1. destruct (IH o1 H1) as [-> ->].
    apply assignOption_positional.
Qed.

End ParseLoop.

(** Option words compose: once a first stretch of words has been parsed to
    the end, the words after it are parsed from the options it left. *)
Lemma parseLoop_app (l1 l2 : list string) (o o1 : CmdOptions) :
  parseLoop l1 o = Parsed o1 →
  parseLoop (l1 ++ l2) o = parseLoop l2 o1.
Proof.
  revert o1. pattern l1, o, (parseLoop l1 o). apply parseLoop_rect; clear l1 o;
    try discriminate.
  - by intros o o1 [= <-].
  - intros w n rest o Hw Hn IH o1 H1. cbn [app]. rewrite parseLoop_step, Hw, Hn.
    by apply IH.
  - intros w n next rest o Hw Hn Hd IH o1 H1. cbn [app].
    rewrite parseLoop_step, Hw, Hn, Hd. by apply IH.
Qed.

(** X1: an option given again replaces what was given before: after words
    that parse, an option that takes an argument, followed by a word that
    does not start with a dash, leaves the options of the first words with
    that one field assigned. *)
Theorem parseLoop_last_wins (l : list string) (w v : string) (n : OptionName)
    (o o1 : CmdOptions) :
  parseLoop l o = Parsed o1 →
  optionNamed w = Some n → takesArgument n = true →
  QString.startsWith v "-" = false →
  parseLoop (l ++ [w; v]) o = Parsed (assignOption n v o1).
Proof.
  intros Hl Hw Hn Hv. rewrite (parseLoop_app _ _ _ _ Hl).
  by rewrite parseLoop_step, Hw, Hn, Hv.
Qed.

Lemma parseLoop_last_wins_witness :
  ∃ o, parseLoop (["-u"; "alice"; "-s"] ++ ["--user"; "bob"]) initialOptions = Parsed o ∧
       user o = "bob" ∧ silent o = true.
Proof.
  eexists. split.
  - apply (parseLoop_last_wins ["-u"; "alice"; "-s"] "--user" "bob" OptUser);
      reflexivity.
  - split; reflexivity.
Defined.

(** A flag is on after the loop exactly when it was on before or one of its
    spellings is among the words; no word turns a flag back. *)
Lemma parseLoop_flag (l : list string) (o o1 : CmdOptions) (n0 : OptionName) :
  takesArgument n0 = false →
  parseLoop l o = Parsed o1 →
  flagIsSet n0 o1 =
  flagIsSet n0 o || existsb (λ w, bool_decide (optionNamed w = Some n0)) l.
Proof.
  intros H0. revert o1. pattern l, o, (parseLoop l o). apply parseLoop_rect; clear l o;
    try discriminate.
  - intros o o1 [= <-]. cbn. by rewrite orb_false_r.
  - intros w n rest o Hw Hn IH o1 H1. rewrite (IH o1 H1).
    rewrite assignOption_flag by done. cbn [existsb]. rewrite Hw, orb_assoc.
    f_equal. f_equal. apply bool_decide_ext. split; congruence.
  - intros w n next rest o Hw Hn Hd IH o1 H1. rewrite (IH o1 H1).
    rewrite assignOption_flag by done. cbn [existsb]. rewrite Hw.
    rewrite (bool_decide_eq_false_2 (n = n0)) by congruence.
    rewrite (bool_decide_eq_false_2 (Some n = Some n0)) by congruence.
    rewrite (bool_decide_eq_false_2 (optionNamed next = Some n0)).
    + by rewrite !orb_false_r.
    + intros Hnext%optionNamed_dash. congruence.
Qed.

(** X2: the loop reads past the end of the argument list exactly when the
    words before the last one parse and the last word is an option that takes
    an argument. *)
Theorem parseLoop_peek_past_end (l : list string) (o : CmdOptions) :
  parseLoop l o = PeekPastEnd ↔
  ∃ l1 o1 w n, l = l1 ++ [w] ∧ parseLoop l1 o = Parsed o1 ∧
               optionNamed w = Some n ∧ takesArgument n = true.
Proof.
  split.
  - pattern l, o, (parseLoop l o). apply parseLoop_rect; clear l o; try discriminate.
    + intros w n rest o Hw Hn IH H1.
      destruct (IH H1) as (l1 & o1 & w' & n' & -> & Hl1 & Hw' & Hn').
      exists (w :: l1), o1, w', n'. repeat split; try done.
      by rewrite parseLoop_step, Hw, Hn.
    + intros w n o Hw Hn _. by exists [], o, w, n.
    + intros w n next rest o Hw Hn Hd IH H1.
      destruct (IH H1) as (l1 & o1 & w' & n' & -> & Hl1 & Hw' & Hn').
      exists (w :: next :: l1), o1, w', n'. repeat split; try done.
      by rewrite parseLoop_step, Hw, Hn, Hd.
  - intros (l1 & o1 & w & n & -> & Hl1 & Hw & Hn).
    rewrite (parseLoop_app _ _ _ _ Hl1). by rewrite parseLoop_step, Hw, Hn.
Qed.

(** X3: the loop ends in [help()] exactly when, after words that parse, it
    meets a word that is no option, or an option that takes an argument and
    is followed by a word that starts with a dash. *)
Theorem parseLoop_help (l : list string) (o : CmdOptions) :
  parseLoop l o = ExitHelp ↔
  ∃ l1 o1 w rest, l = l1 ++ w :: rest ∧ parseLoop l1 o = Parsed o1 ∧
    (optionNamed w = None ∨
     ∃ n next rest', optionNamed w = Some n ∧ takesArgument n = true ∧
                     rest = next :: rest' ∧ QString.startsWith next "-" = true).
Proof.
  split.
  - pattern l, o, (parseLoop l o). apply parseLoop_rect; clear l o; try discriminate.
    + intros w rest o Hw _. exists [], o, w, rest. auto.
    + intros w n rest o Hw Hn IH H1.
      destruct (IH H1) as (l1 & o1 & w' & rest' & -> & Hl1 & Hcase).
      exists (w :: l1), o1, w', rest'. repeat split; try done.
      by rewrite parseLoop_step, Hw, Hn.
    + intros w n next rest o Hw Hn Hd _. exists [], o, w, (next :: rest).
      repeat split; try done. right. by exists n, next, rest.
    + intros w n next rest o Hw Hn Hd IH H1.
      destruct (IH H1) as (l1 & o1 & w' & rest' & -> & Hl1 & Hcase).
      exists (w :: next :: l1), o1, w', rest'. repeat split; try done.
      by rewrite parseLoop_step, Hw, Hn, Hd.
  - intros (l1 & o1 & w & rest & -> & Hl1 & [Hw|(n & next & rest' & Hw & Hn & -> & Hd)]);
      rewrite (parseLoop_app _ _ _ _ Hl1), parseLoop_step, Hw; [done|].
    by rewrite Hn, Hd.
Qed.

Section ParseOptions.

Variable fileExists : string → bool.

Lemma rev_app_acc (s t acc : string) :
  String.rev_app (s +:+ t) acc = String.rev_app t (String.rev_app s acc).
Proof. revert acc. induction s as [|c s IH]; intros acc; [done|]. apply IH. Qed.

Lemma endsWith_append_slash (s : string) : QString.endsWith (s +:+ "/") "/" = true.
Proof.
  unfold QString.endsWith, String.rev. rewrite rev_app_acc. cbn.
  by destruct (String.rev_app s "").
Qed.

Lemma endsWith_withTrailingSlash (s : string) :
  QString.endsWith (withTrailingSlash s) "/" = true.
Proof.
  unfold withTrailingSlash. destruct (QString.endsWith s "/") eqn:H; [done|].
  apply endsWith_append_slash.
Qed.

(** [parseOptions] on a command line with its two positional arguments. *)
Lemma parseOptions_unfold (prog : string) (middle : list string) (src url : string)
    (o0 : CmdOptions) :
  parseOptions fileExists (prog :: middle ++ [src; url]) o0 =
  let dir := withTrailingSlash src in
  if negb (fileExists dir) then ExitNoSourceDir dir
  else match parseLoop middle (set_source_dir dir (set_target_url url o0)) with
       | Parsed o =>
           if QString.isEmpty (target_url o) || QString.isEmpty (source_dir o)
           then ExitHelp else Parsed o
       | r => r
       end.
Proof.
  unfold parseOptions.
  destruct (Z.ltb_spec (Z.of_nat (length (prog :: middle ++ [src; url]))) 3) as [Hlt|_].
  { cbn [length] in Hlt. rewrite length_app in Hlt. cbn in Hlt. lia. }
  cbn [rev]. rewrite rev_app_distr. cbn [rev app].
  rewrite rev_app_distr, rev_involutive. cbn [rev app].
  unfold withTrailingSlash, QString.append. cbn [source_dir set_source_dir].
  by destruct (QString.endsWith src "/").
Qed.

Lemma three_arguments (args : list string) :
  (3 ≤ length args)%nat →
  ∃ prog middle src url, args = prog :: middle ++ [src; url].
Proof.
  intros Hlen. destruct args as [|prog rest]; [cbn in Hlen; lia|].
  exists prog. cbn in Hlen.
  destruct (rev rest) as [|url [|src rmid]] eqn:Hrev.
  - apply (f_equal (@length string)) in Hrev. rewrite length_rev in Hrev.
    cbn in Hrev. lia.
  - apply (f_equal (@length string)) in Hrev. rewrite length_rev in Hrev.
    cbn in Hrev. lia.
  - exists (rev rmid), src, url. f_equal.
    rewrite <- (rev_involutive rest), Hrev. cbn [rev]. by rewrite <- app_assoc.
Qed.

Lemma parseLoop_never_leaves_otherwise (l : list string) (o : CmdOptions) :
  parseLoop l o ≠ ExitVersion ∧ ∀ dir, parseLoop l o ≠ ExitNoSourceDir dir.
Proof.
  pattern l, o, (parseLoop l o). apply parseLoop_rect; clear l o; try done.
Qed.

Lemma parseOptions_short (args : list string) (o0 o : CmdOptions) :
  (length args < 3)%nat → parseOptions fileExists args o0 ≠ Parsed o.
Proof.
  intros Hlen. unfold parseOptions.
  destruct (Z.ltb_spec (Z.of_nat (length args)) 3); [|lia].
  by destruct (_ && _).
Qed.

(** X4: with fewer than three arguments there is no run: the process leaves
    through [showVersion()] when there are exactly two arguments and the
    second is [-v] or [--version], and through [help()] in every other case. *)
Theorem parseOptions_too_few (args : list string) (o0 : CmdOptions) :
  (length args < 3)%nat →
  (parseOptions fileExists args o0 = ExitVersion ∨
   parseOptions fileExists args o0 = ExitHelp) ∧
  (parseOptions fileExists args o0 = ExitVersion ↔
   ∃ prog w, args = [prog; w] ∧ (w = "-v" ∨ w = "--version")).
Proof.
  intros Hlen. destruct args as [|prog [|w [|x rest]]]; cbn in Hlen; try lia.
  - split; [by right|]. split; [discriminate|]. by intros (? & ? & ? & _).
  - split; [by right|]. split; [discriminate|]. by intros (? & ? & ? & _).
  - unfold parseOptions. cbn.
    destruct (String.eqb_spec w "-v") as [->|Hv]; cbn.
    { split; [by left|]. split; [|done]. intros _. exists prog, "-v". auto. }
    destruct (String.eqb_spec w "--version") as [->|Hversion]; cbn.
    { split; [by left|]. split; [|done]. intros _. exists prog, "--version". auto. }
    split; [by right|]. split; [discriminate|].
    intros (? & ? & [= <- <-] & [?|?]); congruence.
Qed.

(** Where parsed options come from. *)
Lemma parseOptions_parsed_loop (args : list string) (o0 o : CmdOptions) :
  parseOptions fileExists args o0 = Parsed o →
  ∃ prog middle src url,
    args = prog :: middle ++ [src; url] ∧
    fileExists (withTrailingSlash src) = true ∧
    url ≠ "" ∧
    parseLoop middle (set_source_dir (withTrailingSlash src) (set_target_url url o0))
      = Parsed o.
Proof.
  intros Hp. destruct (decide (length args < 3)%nat) as [Hlt|Hge].
  { by apply parseOptions_short in Hp. }
  destruct (three_arguments args) as (prog & middle & src & url & ->); [lia|].
  exists prog, middle, src, url. split; [done|].
  rewrite parseOptions_unfold in Hp. cbv zeta in Hp.
  destruct (fileExists (withTrailingSlash src)) eqn:Hex; [|discriminate Hp].
  cbn [negb] in Hp.
  destruct (parseLoop middle _) as [o'| | | |] eqn:Hloop; try discriminate Hp.
  destruct (QString.isEmpty (target_url o')) eqn:Hurl; [discriminate Hp|].
  destruct (QString.isEmpty (source_dir o')) eqn:Hdir; [discriminate Hp|].
  injection Hp as ->. repeat split; try done.
  destruct (parseLoop_positional _ _ _ Hloop) as [_ Ht]. cbn in Ht.
  rewrite Ht in Hurl. intros ->. discriminate Hurl.
Qed.

(** X5: options come out of [parseOptions] only for a command line with a
    program name and two positional arguments at the end; then the target URL
    is the last argument and is not empty, the source directory is the
    argument before it with a slash at the end, added when it had none, that
    directory exists, and the words in between parse. *)
Theorem parseOptions_parsed (args : list string) (o0 o : CmdOptions) :
  parseOptions fileExists args o0 = Parsed o →
  ∃ prog middle src url,
    args = prog :: middle ++ [src; url] ∧
    target_url o = url ∧ url ≠ "" ∧
    source_dir o = withTrailingSlash src ∧
    QString.endsWith (source_dir o) "/" = true ∧
    fileExists (source_dir o) = true ∧
    parseLoop middle (set_source_dir (withTrailingSlash src) (set_target_url url o0))
      = Parsed o.
Proof.
  intros Hp.
  destruct (parseOptions_parsed_loop args o0 o Hp)
    as (prog & middle & src & url & -> & Hex & Hurl & Hloop).
  exists prog, middle, src, url.
  destruct (parseLoop_positional _ _ _ Hloop) as [Hs Ht]. cbn in Hs, Ht.
  rewrite Hs, Ht. repeat split; try done. apply endsWith_withTrailingSlash.
Qed.

(** X6: the source directory is looked for before any option is: when the
    directory (with its slash) does not exist the process leaves with
    [exit(1)] whatever the other words of the command line are. *)
Theorem parseOptions_no_source_dir (prog : string) (middle : list string)
    (src url : string) (o0 : CmdOptions) :
  fileExists (withTrailingSlash src) = false →
  parseOptions fileExists (prog :: middle ++ [src; url]) o0
  = ExitNoSourceDir (withTrailingSlash src).
Proof. intros H. rewrite parseOptions_unfold. cbv zeta. by rewrite H. Qed.

(** X7: with three or more arguments the version is never shown: [-v] and
    [--version] are no words of the option table, so among the options they
    end the process in [help()]. *)
Theorem parseOptions_version_only_alone (prog : string) (l1 l2 : list string)
    (w src url : string) (o0 o1 : CmdOptions) :
  w = "-v" ∨ w = "--version" →
  fileExists (withTrailingSlash src) = true →
  parseLoop l1 (set_source_dir (withTrailingSlash src) (set_target_url url o0))
    = Parsed o1 →
  parseOptions fileExists (prog :: (l1 ++ w :: l2) ++ [src; url]) o0 = ExitHelp ∧
  ∀ args, (3 ≤ length args)%nat → parseOptions fileExists args o0 ≠ ExitVersion.
Proof.
  intros Hw Hex Hl1. split.
  - rewrite parseOptions_unfold. cbv zeta. rewrite Hex. cbn [negb].
    assert (Hh : parseLoop (l1 ++ w :: l2)
                   (set_source_dir (withTrailingSlash src) (set_target_url url o0))
                 = ExitHelp).
    { rewrite (parseLoop_app _ _ _ _ Hl1), parseLoop_step.
      by destruct Hw as [-> | ->]. }
    by rewrite Hh.
  - intros args Hlen.
    destruct (three_arguments args Hlen) as (p & m & s & u & ->).
    rewrite parseOptions_unfold. cbv zeta.
    destruct (negb (fileExists (withTrailingSlash s))); [done|].
    pose proof (parseLoop_never_leaves_otherwise m
                  (set_source_dir (withTrailingSlash s) (set_target_url u o0))) as [Hv _].
    destruct (parseLoop m _); try done.
    by destruct (QString.isEmpty _ || QString.isEmpty _).
Qed.

End ParseOptions.

Lemma parseOptions_too_few_witness :
  parseOptions (λ _, true) ["owncloudcmd"; "--version"] initialOptions = ExitVersion.
Proof.
  destruct (parseOptions_too_few (λ _, true) ["owncloudcmd"; "--version"] initialOptions)
    as [_ [_ H]].
  - cbn. lia.
  - apply H. exists "owncloudcmd", "--version". auto.
Defined.

Lemma parseOptions_parsed_witness :
  ∃ o prog middle src url,
    sampleArgsUnsynced = prog :: middle ++ [src; url] ∧
    target_url o = url ∧ source_dir o = "/tmp/sync/" ∧
    QString.endsWith (source_dir o) "/" = true.
Proof.
  destruct (parseOptions_parsed (λ _, true) sampleArgsUnsynced initialOptions
              (set_unsyncedfolders "unsynced.txt"
                 (set_source_dir "/tmp/sync/"
                    (set_target_url "http://example.com" initialOptions))))
    as (prog & middle & src & url & Hargs & Hurl & _ & Hdir & Hslash & _).
  - reflexivity.
  - eexists _, prog, middle, src, url. repeat split; try eassumption. reflexivity.
Defined.

Lemma parseOptions_no_source_dir_witness :
  parseOptions (λ _, false) ("owncloudcmd" :: ["--no-such-option"] ++ ["/tmp/sync"; ""])
               initialOptions
  = ExitNoSourceDir "/tmp/sync/".
Proof. apply (parseOptions_no_source_dir (λ _, false)). reflexivity. Defined.

Lemma parseOptions_version_only_alone_witness :
  parseOptions (λ _, true)
    ("owncloudcmd" :: (["-s"] ++ "--version" :: []) ++ ["/tmp/sync"; "http://example.com"])
    initialOptions = ExitHelp.
Proof.
  eapply (parseOptions_version_only_alone (λ _, true) "owncloudcmd" ["-s"] []).
  - right. reflexivity.
  - reflexivity.
  - reflexivity.
Defined.

(** ** Reconciliation in general *)

(** X8: on a journal that exists and opens, the call invalidates each path
    that is in exactly one of the two lists, the persisted one and the new one,
    once, and no other path; it then persists the new list as it was given. *)
Theorem fixup_invalidates_symmetric_difference (j : SyncJournalDb)
    (newList : list string) :
  db_exists j = true → db_openable j = true →
  ∃ invalidated,
    avoid_read (selectiveSyncFixup j newList) = avoid_read j ++ invalidated ∧
    NoDup invalidated ∧
    (∀ p, p ∈ invalidated ↔
          (p ∈ blacklist j ∧ p ∉ newList) ∨ (p ∈ newList ∧ p ∉ blacklist j)) ∧
    blacklist (selectiveSyncFixup j newList) = newList.
Proof.
  intros He Ho. rewrite (selectiveSyncFixup_run _ _ He Ho). cbn.
  eexists. split; [reflexivity|]. split; [apply NoDup_elements|]. split; [|done].
  intros p. rewrite elem_of_elements, changes_spec. unfold toSet.
  by rewrite !elem_of_list_to_set.
Qed.

Lemma fixup_invalidates_symmetric_difference_witness :
  ∃ invalidated,
    avoid_read (selectiveSyncFixup journalAB ["/c/"; "/b/"; "/c/"]) = invalidated ∧
    NoDup invalidated ∧
    blacklist (selectiveSyncFixup journalAB ["/c/"; "/b/"; "/c/"]) = ["/c/"; "/b/"; "/c/"].
Proof.
  destruct (fixup_invalidates_symmetric_difference journalAB ["/c/"; "/b/"; "/c/"])
    as (inv & H1 & H2 & _ & H4); [reflexivity|reflexivity|].
  exists inv. split; [exact H1|]. split; [exact H2|exact H4].
Defined.

(** X9: on a journal that exists and opens, the call invalidates nothing
    exactly when the new list has the same paths as the persisted one, in
    whatever order and however often. *)
Theorem fixup_no_invalidation_iff (j : SyncJournalDb) (newList : list string) :
  db_exists j = true → db_openable j = true →
  avoid_read (selectiveSyncFixup j newList) = avoid_read j ↔
  ∀ p, p ∈ blacklist j ↔ p ∈ newList.
Proof.
  intros He Ho. rewrite (selectiveSyncFixup_run _ _ He Ho). cbn.
  split.
  - intros H p.
    assert (Hnil : elements (changes (toSet (blacklist j)) (toSet newList)) = []).
    { apply (app_inv_head (avoid_read j)). by rewrite app_nil_r. }
    apply elements_empty_inv in Hnil.
    assert (Hp : p ∉ changes (toSet (blacklist j)) (toSet newList)).
    { rewrite Hnil. apply not_elem_of_empty. }
    rewrite changes_spec in Hp. unfold toSet in Hp.
    rewrite !elem_of_list_to_set in Hp.
    destruct (decide (p ∈ blacklist j)); destruct (decide (p ∈ newList)); tauto.
  - intros H.
    assert (Hsame : toSet (blacklist j) = toSet newList).
    { apply set_eq. intros p. unfold toSet. rewrite !elem_of_list_to_set. apply H. }
    by rewrite Hsame, changes_same, elements_empty, app_nil_r.
Qed.

Lemma fixup_no_invalidation_iff_witness :
  avoid_read (selectiveSyncFixup journalAB ["/b/"; "/a/"; "/b/"]) = avoid_read journalAB.
Proof.
  apply (fixup_no_invalidation_iff journalAB ["/b/"; "/a/"; "/b/"]);
    [reflexivity|reflexivity|].
  intros p. cbn. rewrite !elem_of_cons, !elem_of_nil. tauto.
Defined.

(** ** The entries of the selective-sync list *)

Section Entries.

Lemma split_parts_no_sep (sep : ascii) (s : string) :
  Forall (λ part, countChar sep part = O) (QString.split sep s).
Proof.
  induction s as [|c s IH]; [by repeat constructor|].
  cbn [QString.split]. destruct (Ascii.eqb c sep) eqn:Hc.
  - by constructor.
  - destruct (QString.split sep s) as [|h t]; [by repeat constructor; cbn; rewrite Hc|].
    inversion IH as [|? ? Hh Ht]; subst. constructor; [|done].
    cbn [countChar]. by rewrite Hc, Hh.
Qed.

Lemma countChar_app (c : ascii) (s t : string) :
  countChar c (s +:+ t) = (countChar c s + countChar c t)%nat.
Proof.
  induction s as [|a s IH]; [done|].
  rewrite append_cons. cbn [countChar]. rewrite IH. lia.
Qed.

Lemma isBlankLine_app (s t : string) :
  isBlankLine (s +:+ t) = isBlankLine s && isBlankLine t.
Proof.
  unfold isBlankLine. induction s as [|a s IH]; [done|].
  rewrite append_cons. cbn [list_ascii_of_string forallb]. rewrite IH.
  by rewrite andb_assoc.
Qed.

Lemma withTrailingSlash_keeps (s : string) :
  isBlankLine s = false →
  isBlankLine (withTrailingSlash s) = false ∧
  beginsWithHash (withTrailingSlash s) = beginsWithHash s ∧
  ∀ c, Ascii.eqb "/" c = false →
       countChar c (withTrailingSlash s) = countChar c s.
Proof.
  intros Hb. unfold withTrailingSlash.
  destruct (QString.endsWith s "/"); [done|]. repeat split.
  - by rewrite isBlankLine_app, Hb.
  - destruct s as [|a s]; [discriminate Hb|]. by rewrite append_cons, !beginsWithHash_eqb.
  - intros c Hc. rewrite countChar_app. cbn [countChar]. rewrite Hc. lia.
Qed.

Lemma elem_of_specExclusionList (content e : string) :
  e ∈ specExclusionList content ↔
  ∃ line, e = withTrailingSlash line ∧ line ∈ QString.split "010" content ∧
          isBlankLine line = false ∧ beginsWithHash line = false.
Proof.
  unfold specExclusionList. rewrite list_elem_of_fmap.
  split; intros (line & -> & H); exists line; (split; [done|]).
  - apply list_elem_of_In, filter_In in H as [Hin Hkeep].
    apply andb_true_iff in Hkeep as [H1%negb_true_iff H2%negb_true_iff].
    by rewrite list_elem_of_In.
  - destruct H as (Hin & H1 & H2). apply list_elem_of_In, filter_In.
    rewrite <- list_elem_of_In. by rewrite H1, H2.
Qed.

End Entries.

(** X10: every entry of the list read from the file of unsynced folders
    ends with a slash, has a character that is no white space, does not begin
    with a hash sign and holds no line feed. *)
Theorem selectiveSyncList_entries (content e : string) :
  e ∈ selectiveSyncListOfContent content →
  QString.endsWith e "/" = true ∧
  isBlankLine e = false ∧
  beginsWithHash e = false ∧
  countChar "010" e = O.
Proof.
  rewrite selectiveSyncListOfContent_spec, elem_of_specExclusionList.
  intros (line & -> & Hin & Hb & Hh).
  destruct (withTrailingSlash_keeps line Hb) as (H1 & H2 & H3).
  split; [apply endsWith_withTrailingSlash|]. split; [exact H1|].
  split; [by rewrite H2|]. rewrite H3 by reflexivity.
  pose proof (split_parts_no_sep "010" content) as Hparts.
  rewrite Forall_forall in Hparts. by apply Hparts.
Qed.

Lemma selectiveSyncList_entries_witness :
  QString.endsWith "photos/" "/" = true ∧ isBlankLine "photos/" = false ∧
  beginsWithHash "photos/" = false ∧ countChar "010" "photos/" = O.
Proof.
  apply (selectiveSyncList_entries "photos
# not this one
music/" "photos/").
  apply list_elem_of_In. vm_compute. tauto.
Defined.

(** X11: the list is empty exactly when every line of the file is white
    space only, empty, or begins with a hash sign. *)
Theorem selectiveSyncList_empty_iff (content : string) :
  selectiveSyncListOfContent content = [] ↔
  ∀ line, line ∈ QString.split "010" content →
          isBlankLine line = true ∨ beginsWithHash line = true.
Proof.
  rewrite selectiveSyncListOfContent_spec. split.
  - intros Hnil line Hin.
    destruct (isBlankLine line) eqn:Hb; [by left|].
    destruct (beginsWithHash line) eqn:Hh; [by right|].
    assert (He : withTrailingSlash line ∈ specExclusionList content).
    { apply elem_of_specExclusionList. by exists line. }
    rewrite Hnil in He. by apply elem_of_nil in He.
  - intros Hall. destruct (specExclusionList content) as [|e l] eqn:Hl; [done|].
    assert (He : e ∈ specExclusionList content) by (rewrite Hl; apply list_elem_of_here).
    apply elem_of_specExclusionList in He as (line & _ & Hin & Hb & Hh).
    destruct (Hall line Hin); congruence.
Qed.

(** X12: a pass whose list is empty, because no file was named, because the
    file cannot be opened, or because it has no entry, does not call
    [selectiveSyncFixup]: the engine gets the journal as the pass found it.
    A file that cannot be opened is reported and is no reason to stop. *)
Theorem pass_without_entries (env : Env) (o : CmdOptions) (remUrl : string)
    (rc : Z) (j : SyncJournalDb) :
  passIsFatal env rc o = false →
  QString.isEmpty (unsyncedfolders o) = true ∨
  env_readFile env rc (unsyncedfolders o) = None ∨
  (∃ content, env_readFile env rc (unsyncedfolders o) = Some content ∧
              selectiveSyncListOfContent content = []) →
  ∃ tr,
    syncPass env o remUrl rc j
      = PassFinished (env_engine env rc j).1 (env_engine env rc j).2 tr ∧
    countEv isSelectiveSyncFixup tr = O ∧
    countEv isStartSync tr = 1%nat ∧
    countEv isCritical tr =
      if QString.isEmpty (unsyncedfolders o) then O
      else match env_readFile env rc (unsyncedfolders o) with
           | None => 1%nat
           | Some _ => O
           end.
Proof.
  intros Hfatal Hcase.
  assert (Hl : (readSelectiveSyncList env rc o).1 = []).
  { unfold readSelectiveSyncList.
    destruct (QString.isEmpty (unsyncedfolders o)); [done|]. cbn [negb].
    destruct Hcase as [?|[->|(content & -> & Hnil)]]; done. }
  pose proof (pass_count_fixup env o remUrl rc j) as Hfix.
  pose proof (pass_count_startSync env o remUrl rc j) as Hss.
  assert (Hcrit : countEv isCritical (passTrace (syncPass env o remUrl rc j)) =
                  countEv isCritical (readSelectiveSyncList env rc o).2).
  { rewrite syncPass_unfold. cbv zeta. rewrite Hfatal, Hl. cbn [passTrace fixupTrace].
    unfold setupTrace. rewrite !countEv_app.
    assert (Hp : countEv isCritical (proxySetup o) = O).
    { unfold proxySetup. destruct (proxy o); [|done].
      by destruct (length _ =? 3)%nat. }
    assert (He : countEv isCritical (loadExcludeLists env rc o).2 = O).
    { unfold loadExcludeLists.
      destruct (negb (QString.isEmpty (env_excludeFileFromSystem env)));
        by destruct (negb (QString.isEmpty (exclude o))). }
    rewrite Hp, He. cbn. lia. }
  revert Hfix Hss Hcrit. rewrite syncPass_unfold. cbv zeta. rewrite Hfatal, Hl.
  cbn [passTrace journalAfterFixup]. intros Hfix Hss Hcrit.
  eexists. split; [reflexivity|]. split; [exact Hfix|]. split; [exact Hss|].
  rewrite Hcrit. unfold readSelectiveSyncList.
  destruct (QString.isEmpty (unsyncedfolders o)); [done|]. cbn [negb].
  by destruct (env_readFile env rc (unsyncedfolders o)).
Qed.

Lemma pass_without_entries_witness :
  ∃ tr,
    syncPass (failingExcludeEnv 0) sampleOptions "owncloud://example.com/" 0 journalAB
      = PassFinished journalAB false tr ∧
    countEv isSelectiveSyncFixup tr = O ∧
    countEv isCritical tr = 1%nat.
Proof.
  destruct (pass_without_entries (failingExcludeEnv 0) sampleOptions
              "owncloud://example.com/" 0 journalAB) as (tr & H1 & H2 & _ & H4).
  - reflexivity.
  - right. left. reflexivity.
  - exists tr. split; [exact H1|]. split; [exact H2|exact H4].
Defined.

(** ** Credentials in general *)

Lemma getline_spec (stdin : list string) :
  getline stdin = (default "" (stdin !! O), drop 1 stdin).
Proof. by destruct stdin. Qed.

(** X13: a user and a password given as options are the credentials of the
    run when netrc is off or its file does not parse: they win over those of
    the URL, nothing is asked and nothing is read from standard input, in
    interactive mode as well. *)
Theorem credentials_from_options (env : Env) (o : CmdOptions) :
  QString.isEmpty (user o) = false →
  QString.isEmpty (password o) = false →
  useNetrc o = false ∨ netrc_parse (env_netrc env) = false →
  resolveCredentials env o = ((user o, password o), env_stdin env, []).
Proof.
  intros Hu Hp Hn.
  unfold resolveCredentials, credentialsFromNetrc, credentialsFromOptions.
  rewrite Hu, Hp. cbn [negb].
  assert (Hprompt : ∀ i, credentialsFromPrompt i (env_stdin env) (user o, password o)
                         = ((user o, password o), env_stdin env, [])).
  { intros i. unfold credentialsFromPrompt. cbn [fst snd]. rewrite Hu, Hp.
    by destruct i. }
  destruct Hn as [-> | Hn]; [apply Hprompt|].
  rewrite Hn. destruct (useNetrc o); apply Hprompt.
Qed.

Lemma credentials_from_options_witness :
  resolveCredentials (failingExcludeEnv 0)
    (set_user "alice" (set_password "secret" sampleOptions))
  = (("alice", "secret"), [], []).
Proof.
  apply (credentials_from_options (failingExcludeEnv 0)
           (set_user "alice" (set_password "secret" sampleOptions)));
    [reflexivity|reflexivity|]. left. reflexivity.
Defined.

(** X14: the prompts of the interactive mode read one line for each field
    that is still empty and none for the others: the user from the first
    line, the password from the line after the ones the user prompt took; a
    field that is not empty is kept, and a line that is not there reads as
    the empty string.  Without the interactive mode nothing is read. *)
Theorem prompt_reads_empty_fields (stdin : list string) (prior : LoginPair) :
  let k1 := if QString.isEmpty prior.1 then 1%nat else O in
  let k2 := if QString.isEmpty prior.2 then 1%nat else O in
  let r := credentialsFromPrompt true stdin prior in
  r.1.2 = drop (k1 + k2) stdin ∧
  r.1.1.1 = (if QString.isEmpty prior.1 then default "" (stdin !! O) else prior.1) ∧
  r.1.1.2 = (if QString.isEmpty prior.2 then default "" (stdin !! k1) else prior.2) ∧
  r.2 = (if QString.isEmpty prior.1 then [EvPromptUser] else []) ++
        (if QString.isEmpty prior.2 then [EvQueryPassword r.1.1.1] else []) ∧
  credentialsFromPrompt false stdin prior = (prior, stdin, []).
Proof.
  cbv zeta. unfold credentialsFromPrompt.
  destruct (QString.isEmpty prior.1); destruct (QString.isEmpty prior.2);
    rewrite ?getline_spec; cbn [fst snd]; rewrite ?getline_spec; cbn [fst snd];
    repeat split; try done.
  - by rewrite drop_drop.
  - by rewrite lookup_drop.
Qed.

(** ** The restart loop in general *)

Section LoopGeneral.

Variables (env : Env) (o : CmdOptions) (remUrl : string).

Local Abbreviation pass := (syncPass env o remUrl).
Local Abbreviation loop fuel := (restartSync fuel env o remUrl).

Lemma pass_count_destroy rc j :
  countEv isCsyncDestroy (passTrace (pass rc j)) =
  if passIsFatal env rc o then O else 1%nat.
Proof. count_pass. by destruct (readSelectiveSyncList env rc o).1. Qed.

Lemma pass_not_fatal rc j :
  passIsFatal env rc o = false →
  ∃ tr', pass rc j = PassFinished (env_engine env rc (journalAfterFixup j
                        (readSelectiveSyncList env rc o).1)).1
                       (env_engine env rc (journalAfterFixup j
                        (readSelectiveSyncList env rc o).1)).2 tr'.
Proof. intros H. rewrite syncPass_unfold. cbv zeta. rewrite H. eauto. Qed.

Lemma pass_fatal rc j :
  passIsFatal env rc o = true → ∃ tr', pass rc j = PassFatal tr'.
Proof. intros H. rewrite syncPass_unfold. cbv zeta. rewrite H. eauto. Qed.

(** [k] passes in a row that are not fatal and after which the engine wants
    another sync, with restarts to spare: the loop is [k] passes further. *)
Lemma restartSync_advance (k : nat) :
  ∀ fuel rc j tr,
    (∀ i, rc ≤ i < rc + Z.of_nat k → passIsFatal env i o = false) →
    (∀ i j', rc ≤ i < rc + Z.of_nat k → (env_engine env i j').2 = true) →
    rc + Z.of_nat k ≤ restartTimes o → (k ≤ fuel)%nat →
    ∃ j' tr',
      loop fuel rc j tr = loop (fuel - k) (rc + Z.of_nat k) j' tr' ∧
      countEv isStartSync tr' = (countEv isStartSync tr + k)%nat ∧
      countEv isRestart tr' = (countEv isRestart tr + k)%nat ∧
      countEv isWarning tr' = countEv isWarning tr.
Proof.
  induction k as [|k IH]; intros fuel rc j tr Hfatal Hanother Hrt Hfuel.
  - exists j, tr. rewrite Nat.sub_0_r, Z.add_0_r, !Nat.add_0_r. done.
  - destruct fuel as [|fuel]; [lia|].
    destruct (pass_not_fatal rc j) as [tr1 Hp]; [apply Hfatal; lia|].
    pose proof (pass_count_startSync env o remUrl rc j) as Hss.
    pose proof (pass_count_restart env o remUrl rc j) as Hre.
    pose proof (pass_count_warning env o remUrl rc j) as Hwa.
    rewrite Hp in Hss, Hre, Hwa. rewrite Hfatal in Hss by lia.
    rewrite Hanother in Hp by lia. cbn [passTrace] in *.
    set (j1 := (env_engine env rc _).1) in Hp.
    destruct (IH fuel (rc + 1) j1 (tr ++ tr1 ++ [EvRestart (rc + 1)]))
      as (j' & tr' & Hloop & Hss' & Hre' & Hwa'); try lia.
    { intros i Hi. apply Hfatal. lia. }
    { intros i j' Hi. apply Hanother. lia. }
    exists j', tr'. split.
    + cbn [restartSync]. rewrite Hp.
      destruct (Z.ltb_spec rc (restartTimes o)); [|lia].
      rewrite Hloop. cbn [Nat.sub]. f_equal. lia.
    + rewrite !countEv_app, ?Hss, ?Hre, ?Hwa in Hss', Hre', Hwa'.
      cbn in Hss', Hre', Hwa'. repeat split; lia.
Qed.

(** The last pass of a run: the engine is content. *)
Lemma restartSync_content fuel rc j tr :
  passIsFatal env rc o = false →
  (∀ j', (env_engine env rc j').2 = false) →
  ∃ r, loop fuel rc j tr = Some r ∧ outcome r = Returned 0 ∧
       countEv isStartSync (trace r) = (countEv isStartSync tr + 1)%nat ∧
       countEv isRestart (trace r) = countEv isRestart tr ∧
       countEv isWarning (trace r) = countEv isWarning tr.
Proof.
  intros Hfatal Hcontent. destruct (pass_not_fatal rc j Hfatal) as [tr1 Hp].
  pose proof (pass_count_startSync env o remUrl rc j) as Hss.
  pose proof (pass_count_restart env o remUrl rc j) as Hre.
  pose proof (pass_count_warning env o remUrl rc j) as Hwa.
  rewrite Hp in Hss, Hre, Hwa. rewrite Hfatal in Hss. rewrite Hcontent in Hp.
  cbn [passTrace] in *.
  eexists. split; [destruct fuel; cbn [restartSync]; by rewrite Hp|].
  cbn [outcome trace]. rewrite !countEv_app, Hss, Hre, Hwa. repeat split; lia.
Qed.

(** The last pass of a run: the engine wants more and no restart is left. *)
Lemma restartSync_exceeded fuel rc j tr :
  passIsFatal env rc o = false →
  (∀ j', (env_engine env rc j').2 = true) →
  restartTimes o ≤ rc →
  ∃ r, loop fuel rc j tr = Some r ∧ outcome r = Returned 0 ∧
       countEv isStartSync (trace r) = (countEv isStartSync tr + 1)%nat ∧
       countEv isRestart (trace r) = countEv isRestart tr ∧
       countEv isWarning (trace r) = (countEv isWarning tr + 1)%nat ∧
       last (trace r) = Some (EvWarning rc).
Proof.
  intros Hfatal Hmore Hrt. destruct (pass_not_fatal rc j Hfatal) as [tr1 Hp].
  pose proof (pass_count_startSync env o remUrl rc j) as Hss.
  pose proof (pass_count_restart env o remUrl rc j) as Hre.
  pose proof (pass_count_warning env o remUrl rc j) as Hwa.
  rewrite Hp in Hss, Hre, Hwa. rewrite Hfatal in Hss. rewrite Hmore in Hp.
  cbn [passTrace] in *.
  assert (Hlt : (rc <? restartTimes o) = false) by (apply Z.ltb_ge; lia).
  eexists. split; [destruct fuel; cbn [restartSync]; by rewrite Hp, Hlt|].
  cbn [outcome trace]. rewrite !countEv_app, Hss, Hre, Hwa.
  repeat split; try (cbn; lia). by rewrite app_assoc, last_snoc.
Qed.

(** The last pass of a run: the exclude lists stop it. *)
Lemma restartSync_stopped fuel rc j tr :
  passIsFatal env rc o = true →
  ∃ r, loop fuel rc j tr = Some r ∧ outcome r = Fatal ∧ journal r = j ∧
       countEv isStartSync (trace r) = countEv isStartSync tr ∧
       countEv isRestart (trace r) = countEv isRestart tr.
Proof.
  intros Hfatal. destruct (pass_fatal rc j Hfatal) as [tr1 Hp].
  pose proof (pass_count_startSync env o remUrl rc j) as Hss.
  pose proof (pass_count_restart env o remUrl rc j) as Hre.
  rewrite Hp in Hss, Hre. rewrite Hfatal in Hss. cbn [passTrace] in *.
  eexists. split; [destruct fuel; cbn [restartSync]; by rewrite Hp|].
  cbn [outcome trace journal]. rewrite !countEv_app, Hss, Hre. repeat split; lia.
Qed.

(** Whatever the engine and the exclude lists do, the loop does not start
    the engine or restart more often than the restarts left allow. *)
Lemma restartSync_bounded fuel :
  ∀ rc j tr r,
    loop fuel rc j tr = Some r →
    (countEv isStartSync (trace r)
       ≤ countEv isStartSync tr + Z.to_nat (restartTimes o - rc) + 1)%nat ∧
    (countEv isRestart (trace r)
       ≤ countEv isRestart tr + Z.to_nat (restartTimes o - rc))%nat ∧
    (countEv isWarning (trace r) ≤ countEv isWarning tr + 1)%nat.
Proof.
  induction fuel as [|fuel IH]; intros rc j tr r; cbn [restartSync];
    pose proof (pass_count_startSync env o remUrl rc j) as Hss;
    pose proof (pass_count_restart env o remUrl rc j) as Hre;
    pose proof (pass_count_warning env o remUrl rc j) as Hwa;
    destruct (pass rc j) as [tr1|j1 another tr1]; cbn [passTrace] in *;
    destruct (passIsFatal env rc o);
    try (intros [= <-]; cbn [trace]; rewrite !countEv_app, Hss, Hre, Hwa; lia);
    destruct another;
    try (intros [= <-]; cbn [trace]; rewrite !countEv_app, Hss, Hre, Hwa; lia);
    destruct (Z.ltb_spec rc (restartTimes o));
    try discriminate;
    try (intros [= <-]; cbn [trace]; rewrite !countEv_app, Hss, Hre, Hwa; cbn; lia).
  all: intros Hr; apply IH in Hr; rewrite !countEv_app, Hss, Hre, Hwa in Hr;
    cbn in Hr; lia.
Qed.

Lemma pass_kind rc j :
  passIsFatal env rc o =
  match pass rc j with PassFatal _ => true | PassFinished _ _ _ => false end.
Proof. rewrite syncPass_unfold. cbv zeta. by destruct (passIsFatal env rc o). Qed.

(** Contexts created and destroyed: one is left over when the run is stopped
    by [qFatal], none otherwise. *)
Lemma restartSync_contexts fuel :
  ∀ rc j tr r,
    loop fuel rc j tr = Some r →
    (countEv isCsyncCreate (trace r) + countEv isCsyncDestroy tr =
     countEv isCsyncDestroy (trace r) + countEv isCsyncCreate tr +
     (if endedFatal r then 1 else 0))%nat.
Proof.
  induction fuel as [|fuel IH]; intros rc j tr r; cbn [restartSync];
    pose proof (pass_count_create env o remUrl rc j) as Hcr;
    pose proof (pass_count_destroy rc j) as Hde;
    pose proof (pass_kind rc j) as Hk;
    destruct (pass rc j) as [tr1|j1 another tr1]; cbn [passTrace] in *;
    rewrite Hk in Hde;
    try (intros [= <-]; cbn [trace endedFatal outcome];
         rewrite !countEv_app, Hcr, Hde; lia);
    destruct another;
    try (intros [= <-]; cbn [trace endedFatal outcome];
         rewrite !countEv_app, Hcr, Hde; lia);
    destruct (Z.ltb_spec rc (restartTimes o));
    try discriminate;
    try (intros [= <-]; cbn [trace endedFatal outcome];
         rewrite !countEv_app, Hcr, Hde; cbn; lia).
  intros Hr. apply IH in Hr. rewrite !countEv_app, Hcr, Hde in Hr. cbn in Hr. lia.
Qed.

Lemma contextScan_app (alive : bool) (tr1 tr2 : list Event) :
  contextScan alive (tr1 ++ tr2) =
  match contextScan alive tr1 with
  | Some alive' => contextScan alive' tr2
  | None => None
  end.
Proof.
  revert alive. induction tr1 as [|e tr1 IH]; intros alive; [done|].
  destruct e; cbn [app contextScan]; try apply IH; destruct alive; try done; apply IH.
Qed.

Lemma contextScan_neutral (alive : bool) (tr : list Event) :
  Forall (λ e, isCsyncCreate e = false ∧ isCsyncDestroy e = false) tr →
  contextScan alive tr = Some alive.
Proof.
  induction 1 as [|e tr [Hc Hd] _ IH]; [done|].
  destruct e; try discriminate Hc; try discriminate Hd; exact IH.
Qed.

(** A pass starts without a context and ends without one, unless it is
    stopped by [qFatal] with its context alive. *)
Lemma pass_scan rc j :
  contextScan false (passTrace (pass rc j)) = Some (passIsFatal env rc o).
Proof.
  rewrite syncPass_unfold. cbv zeta.
  assert (Hsetup : ∀ alive, contextScan alive (setupTrace env rc o) = Some alive).
  { intros alive. apply contextScan_neutral.
    eapply Forall_impl; [apply setupTrace_setup|]. by intros []. }
  destruct (passIsFatal env rc o); cbn [passTrace]; unfold contextTrace;
    cbn [app contextScan]; rewrite contextScan_app, Hsetup; [done|].
  by destruct (readSelectiveSyncList env rc o).1.
Qed.

Lemma restartSync_scan fuel :
  ∀ rc j tr r,
    loop fuel rc j tr = Some r →
    contextScan false tr = Some false →
    contextScan false (trace r) = Some (endedFatal r).
Proof.
  induction fuel as [|fuel IH]; intros rc j tr r; cbn [restartSync];
    pose proof (pass_scan rc j) as Hscan;
    pose proof (pass_kind rc j) as Hk;
    destruct (pass rc j) as [tr1|j1 another tr1]; cbn [passTrace] in *;
    rewrite Hk in Hscan;
    [ | destruct another; [destruct (rc <? restartTimes o)|]
      | | destruct another; [destruct (rc <? restartTimes o)|] ];
    intros Hr Htr; try discriminate Hr;
    try (injection Hr as <-; cbn [trace endedFatal outcome];
         by rewrite contextScan_app, Htr, ?contextScan_app, Hscan).
  apply (IH _ _ _ _ Hr). by rewrite contextScan_app, Htr, contextScan_app, Hscan.
Qed.

End LoopGeneral.

Section RunsGeneral.

Variables (env : Env) (o : CmdOptions).

Lemma initial_trace_count (p : Event → bool) :
  p EvPromptUser = false → (∀ u, p (EvQueryPassword u) = false) →
  (∀ u pw t, p (EvCredentials u pw t) = false) →
  let c := resolveCredentials env (fixTargetUrl env o) in
  countEv p (c.2 ++ [EvCredentials c.1.1.1 c.1.1.2 (trustSSL (fixTargetUrl env o))]) = O.
Proof.
  intros H1 H2 H3. cbv zeta. rewrite countEv_app.
  unfold resolveCredentials. rewrite credentialsFromPrompt_trace by done.
  unfold countEv. cbn. by rewrite H3.
Qed.

End RunsGeneral.

(** X15: the run ends with the first pass after which the engine wants no
    other: when that is the pass after [k] restarts, with [k] no more than the
    restarts allowed, the engine has been started [k + 1] times, there is no
    warning and [main] returns 0. *)
Theorem run_ends_when_engine_content (env : Env) (o : CmdOptions) (k : nat) :
  env_accountCreated env = true →
  (∀ i, 0 ≤ i ≤ Z.of_nat k → passIsFatal env i o = false) →
  (∀ i j, 0 ≤ i < Z.of_nat k → (env_engine env i j).2 = true) →
  (∀ j, (env_engine env (Z.of_nat k) j).2 = false) →
  Z.of_nat k ≤ restartTimes o →
  ∃ r, mainFrom env o = Some r ∧ outcome r = Returned 0 ∧
       countEv isStartSync (trace r) = S k ∧
       countEv isRestart (trace r) = k ∧
       countEv isWarning (trace r) = O.
Proof.
  intros Hacc Hfatal Hmore Hcontent Hk. rewrite mainFrom_unfold by done. cbv zeta.
  set (o' := fixTargetUrl env o). set (c := resolveCredentials env o').
  set (tr0 := c.2 ++ [EvCredentials c.1.1.1 c.1.1.2 (trustSSL o')]).
  assert (Hrt : restartTimes o' = restartTimes o) by apply fixTargetUrl_restartTimes.
  destruct (restartSync_advance env o' (target_url o') k (Z.to_nat (restartTimes o)) 0
              (env_journal env) tr0) as (j' & tr' & Hloop & Hss & Hre & Hwa);
    try lia.
  { intros i Hi. unfold o'. rewrite passIsFatal_fixTargetUrl. apply Hfatal. lia. }
  { intros i j Hi. apply Hmore. lia. }
  destruct (restartSync_content env o' (target_url o')
              (Z.to_nat (restartTimes o) - k) (0 + Z.of_nat k) j' tr')
    as (r & Hr & Hout & Hss' & Hre' & Hwa').
  { unfold o'. rewrite passIsFatal_fixTargetUrl. apply Hfatal. lia. }
  { intros j. rewrite Z.add_0_l. apply Hcontent. }
  exists r. rewrite Hloop. split; [exact Hr|]. split; [exact Hout|].
  unfold tr0, c, o' in Hss, Hre, Hwa.
  rewrite initial_trace_count in Hss, Hre, Hwa by done. lia.
Qed.

Lemma run_ends_when_engine_content_witness :
  ∃ r, mainFrom (sampleEnvWith (λ _ _, 0) (λ rc, rc <? 2)) sampleOptions = Some r ∧
       outcome r = Returned 0 ∧
       countEv isStartSync (trace r) = 3%nat ∧
       countEv isRestart (trace r) = 2%nat ∧
       countEv isWarning (trace r) = O.
Proof.
  apply (run_ends_when_engine_content
           (sampleEnvWith (λ _ _, 0) (λ rc, rc <? 2)) sampleOptions 2).
  - reflexivity.
  - intros i Hi. reflexivity.
  - intros i j Hi. cbn. apply Z.ltb_lt. lia.
  - intros j. reflexivity.
  - cbn. lia.
Defined.

(** X16: the exclude lists are loaded again in every pass, so a run can be
    stopped by [qFatal] after the engine has run: when both lists fail to load
    in the pass after [k] restarts, the run ends fatally with [k] engine
    starts behind it. *)
Theorem run_fatal_after_restarts (env : Env) (o : CmdOptions) (k : nat) :
  env_accountCreated env = true →
  (∀ i, 0 ≤ i < Z.of_nat k → passIsFatal env i o = false) →
  passIsFatal env (Z.of_nat k) o = true →
  (∀ i j, 0 ≤ i < Z.of_nat k → (env_engine env i j).2 = true) →
  Z.of_nat k ≤ restartTimes o →
  ∃ r, mainFrom env o = Some r ∧ outcome r = Fatal ∧
       countEv isStartSync (trace r) = k ∧
       countEv isRestart (trace r) = k.
Proof.
  intros Hacc Hfine Hfatal Hmore Hk. rewrite mainFrom_unfold by done. cbv zeta.
  set (o' := fixTargetUrl env o). set (c := resolveCredentials env o').
  set (tr0 := c.2 ++ [EvCredentials c.1.1.1 c.1.1.2 (trustSSL o')]).
  assert (Hrt : restartTimes o' = restartTimes o) by apply fixTargetUrl_restartTimes.
  destruct (restartSync_advance env o' (target_url o') k (Z.to_nat (restartTimes o)) 0
              (env_journal env) tr0) as (j' & tr' & Hloop & Hss & Hre & Hwa);
    try lia.
  { intros i Hi. unfold o'. rewrite passIsFatal_fixTargetUrl. apply Hfine. lia. }
  { intros i j Hi. apply Hmore. lia. }
  destruct (restartSync_stopped env o' (target_url o')
              (Z.to_nat (restartTimes o) - k) (0 + Z.of_nat k) j' tr')
    as (r & Hr & Hout & _ & Hss' & Hre').
  { unfold o'. by rewrite passIsFatal_fixTargetUrl, Z.add_0_l. }
  exists r. rewrite Hloop. split; [exact Hr|]. split; [exact Hout|].
  unfold tr0, c, o' in Hss, Hre.
  rewrite initial_trace_count in Hss, Hre by done. lia.
Qed.

Lemma run_fatal_after_restarts_witness :
  ∃ r, mainFrom (sampleEnvWith (λ rc _, if rc =? 0 then 0 else -1) (λ _, true))
                (set_exclude "exclude.lst" sampleOptions) = Some r ∧
       outcome r = Fatal ∧
       countEv isStartSync (trace r) = 1%nat ∧
       countEv isRestart (trace r) = 1%nat.
Proof.
  apply (run_fatal_after_restarts
           (sampleEnvWith (λ rc _, if rc =? 0 then 0 else -1) (λ _, true))
           (set_exclude "exclude.lst" sampleOptions) 1).
  - reflexivity.
  - intros i Hi. assert (i = 0) as -> by lia. reflexivity.
  - reflexivity.
  - intros i j Hi. reflexivity.
  - cbn. lia.
Defined.

(** X17: when the engine wants another sync after every pass and the exclude
    lists never stop the run, the engine is started once more than there are
    restarts allowed, for every value of the restart count: a count of zero
    or less gives a single pass.  The warning, with the number of restarts
    made, is the last thing that happens and [main] returns 0. *)
Theorem run_uses_all_restarts (env : Env) (o : CmdOptions) :
  env_accountCreated env = true →
  (∀ i, passIsFatal env i o = false) →
  (∀ i j, (env_engine env i j).2 = true) →
  ∃ r, mainFrom env o = Some r ∧ outcome r = Returned 0 ∧
       countEv isStartSync (trace r) = S (Z.to_nat (restartTimes o)) ∧
       countEv isRestart (trace r) = Z.to_nat (restartTimes o) ∧
       countEv isWarning (trace r) = 1%nat ∧
       last (trace r) = Some (EvWarning (Z.max 0 (restartTimes o))).
Proof.
  intros Hacc Hfine Hmore. rewrite mainFrom_unfold by done. cbv zeta.
  set (o' := fixTargetUrl env o). set (c := resolveCredentials env o').
  set (tr0 := c.2 ++ [EvCredentials c.1.1.1 c.1.1.2 (trustSSL o')]).
  assert (Hrt : restartTimes o' = restartTimes o) by apply fixTargetUrl_restartTimes.
  set (k := Z.to_nat (restartTimes o)).
  destruct (Z.le_gt_cases 0 (restartTimes o)) as [Hpos|Hneg].
  - destruct (restartSync_advance env o' (target_url o') k k 0
                (env_journal env) tr0) as (j' & tr' & Hloop & Hss & Hre & Hwa);
      try lia.
    { intros i Hi. unfold o'. rewrite passIsFatal_fixTargetUrl. apply Hfine. }
    { intros i j Hi. apply Hmore. }
    destruct (restartSync_exceeded env o' (target_url o') (k - k) (0 + Z.of_nat k) j' tr')
      as (r & Hr & Hout & Hss' & Hre' & Hwa' & Hlast).
    { unfold o'. rewrite passIsFatal_fixTargetUrl. apply Hfine. }
    { intros j. apply Hmore. }
    { lia. }
    exists r. rewrite Hloop. split; [exact Hr|]. split; [exact Hout|].
    unfold tr0, c, o' in Hss, Hre, Hwa.
    rewrite initial_trace_count in Hss, Hre, Hwa by done.
    repeat split; try lia.
    rewrite Hlast. do 2 f_equal. lia.
  - destruct (restartSync_exceeded env o' (target_url o') k 0 (env_journal env) tr0)
      as (r & Hr & Hout & Hss' & Hre' & Hwa' & Hlast).
    { unfold o'. rewrite passIsFatal_fixTargetUrl. apply Hfine. }
    { intros j. apply Hmore. }
    { lia. }
    exists r. split; [exact Hr|]. split; [exact Hout|].
    unfold tr0, c, o' in Hss', Hre', Hwa'.
    rewrite initial_trace_count in Hss', Hre', Hwa' by done.
    repeat split; try lia.
    rewrite Hlast. do 2 f_equal. lia.
Qed.

Lemma run_uses_all_restarts_witness :
  ∃ r, mainFrom (sampleEnvWith (λ _ _, 0) (λ _, true))
                (set_restartTimes 0 sampleOptions) = Some r ∧
       outcome r = Returned 0 ∧
       countEv isStartSync (trace r) = 1%nat ∧
       countEv isRestart (trace r) = O ∧
       countEv isWarning (trace r) = 1%nat ∧
       last (trace r) = Some (EvWarning 0).
Proof.
  apply (run_uses_all_restarts (sampleEnvWith (λ _ _, 0) (λ _, true))
           (set_restartTimes 0 sampleOptions)).
  - reflexivity.
  - intros i. reflexivity.
  - intros i j. reflexivity.
Defined.

(** X18: whatever the engine reports and whatever loads, a run starts the
    engine at most once more than there are restarts allowed, restarts at
    most that often, and warns at most once. *)
Theorem run_is_bounded (env : Env) (o : CmdOptions) (r : Run) :
  mainFrom env o = Some r →
  (countEv isStartSync (trace r) ≤ Z.to_nat (restartTimes o) + 1)%nat ∧
  (countEv isRestart (trace r) ≤ Z.to_nat (restartTimes o))%nat ∧
  (countEv isWarning (trace r) ≤ 1)%nat.
Proof.
  destruct (env_accountCreated env) eqn:Hacc.
  - rewrite mainFrom_unfold by done. cbv zeta. intros Hr.
    apply restartSync_bounded in Hr.
    rewrite !initial_trace_count in Hr by done.
    rewrite fixTargetUrl_restartTimes, Z.sub_0_r in Hr. lia.
  - unfold mainFrom. rewrite Hacc. cbn [negb]. intros [= <-]. cbn. lia.
Qed.

Lemma run_is_bounded_witness :
  ∃ r, mainFrom (sampleEnv true) sampleOptions = Some r ∧
       (countEv isStartSync (trace r) ≤ 4)%nat.
Proof.
  destruct (mainFrom_total (sampleEnv true) sampleOptions) as [r Hr].
  exists r. split; [exact Hr|].
  destruct (run_is_bounded (sampleEnv true) sampleOptions r Hr) as [H _].
  exact H.
Defined.

(** X19: every context that [csync_create] made is given to [csync_destroy]
    before the next one is made or [main] returns; only a run that [qFatal]
    stops leaves its last context behind.  Followed through the trace from
    its start, no context is created while one exists and none is destroyed
    when none exists, and one exists at the end exactly when the run was
    stopped by [qFatal]. *)
Theorem run_contexts_balanced (env : Env) (o : CmdOptions) (r : Run) :
  env_accountCreated env = true →
  mainFrom env o = Some r →
  contextScan false (trace r) = Some (endedFatal r) ∧
  countEv isCsyncCreate (trace r) =
  (countEv isCsyncDestroy (trace r) + (if endedFatal r then 1 else 0))%nat.
Proof.
  intros Hacc. rewrite mainFrom_unfold by done. cbv zeta. intros Hr. split.
  - apply (restartSync_scan _ _ _ _ _ _ _ _ Hr).
    apply contextScan_neutral. rewrite Forall_app. split; [|by repeat constructor].
    eapply Forall_impl; [apply credentialsFromPrompt_prompts|]. by intros [].
  - apply restartSync_contexts in Hr. rewrite !initial_trace_count in Hr by done. lia.
Qed.

Lemma run_contexts_balanced_witness :
  ∃ r, mainFrom (sampleEnv true) sampleOptions = Some r ∧
       contextScan false (trace r) = Some false ∧
       countEv isCsyncCreate (trace r) = countEv isCsyncDestroy (trace r).
Proof.
  destruct (mainFrom_total (sampleEnv true) sampleOptions) as [r Hr].
  exists r. split; [exact Hr|].
  destruct (run_contexts_balanced (sampleEnv true) sampleOptions r eq_refl Hr)
    as [Hscan Hcount].
  assert (Hout : endedFatal r = false).
  { revert Hr. vm_compute. by intros [= <-]. }
  rewrite Hout in Hscan, Hcount. split; [exact Hscan|]. lia.
Defined.

(** X20: for a command line that parses, a flag of the option table is on
    exactly when one of its spellings is among the words between the program
    name and the two positional arguments. *)
Theorem parseOptions_flags (fileExists : string → bool) (prog : string)
    (middle : list string) (src url : string) (o : CmdOptions) (n0 : OptionName) :
  takesArgument n0 = false →
  parseOptions fileExists (prog :: middle ++ [src; url]) initialOptions = Parsed o →
  flagIsSet n0 o = optionOccurs n0 middle.
Proof.
  intros Hn0 Hp.
  destruct (parseOptions_parsed_loop fileExists _ _ _ Hp)
    as (prog' & middle' & src' & url' & Hargs & _ & _ & Hloop).
  injection Hargs as <- Hrest.
  assert (Hmid : middle = middle' ∧ [src; url] = [src'; url']).
  { apply app_inj_2; [done|exact Hrest]. }
  destruct Hmid as [<- _].
  rewrite (parseLoop_flag _ _ _ n0 Hn0 Hloop). by destruct n0.
Qed.

Lemma parseOptions_flags_witness :
  ∃ o, parseOptions (λ _, true)
         ("owncloudcmd" :: ["--trust"; "-u"; "alice"; "-h"] ++ ["/tmp/sync"; "http://example.com"])
         initialOptions = Parsed o ∧
       flagIsSet OptTrust o = true ∧ flagIsSet OptHidden o = true ∧
       flagIsSet OptNetrc o = false.
Proof.
  eexists. split; [vm_compute; reflexivity|].
  split; [|split; reflexivity].
  rewrite (parseOptions_flags (λ _, true) "owncloudcmd"
             ["--trust"; "-u"; "alice"; "-h"] "/tmp/sync" "http://example.com" _ OptTrust);
    reflexivity.
Defined.

Section Settings.

Variable env : Env.

Lemma fixTargetUrl_settings (o : CmdOptions) :
  silent (fixTargetUrl env o) = silent o ∧
  ignoreHiddenFiles (fixTargetUrl env o) = ignoreHiddenFiles o ∧
  trustSSL (fixTargetUrl env o) = trustSSL o.
Proof. by rewrite fixTargetUrl_frame. Qed.

Lemma pass_settings (o : CmdOptions) (remUrl : string) rc j (t : bool) :
  Forall (runSettings (silent o) (ignoreHiddenFiles o) t)
         (passTrace (syncPass env o remUrl rc j)).
Proof.
  rewrite syncPass_unfold. cbv zeta.
  assert (Hsetup : Forall (runSettings (silent o) (ignoreHiddenFiles o) t)
                          (setupTrace env rc o)).
  { eapply Forall_impl; [apply setupTrace_setup|]. by intros []. }
  destruct (passIsFatal env rc o); cbn [passTrace]; rewrite !Forall_app.
  - repeat split; try done; repeat constructor.
  - repeat split; try done; repeat constructor.
    by destruct (readSelectiveSyncList env rc o).1; repeat constructor.
Qed.

Lemma mainFrom_settings (o : CmdOptions) (r : Run) :
  mainFrom env o = Some r →
  Forall (runSettings (silent o) (ignoreHiddenFiles o) (trustSSL o)) (trace r).
Proof.
  destruct (env_accountCreated env) eqn:Hacc.
  - rewrite mainFrom_unfold by done. cbv zeta.
    destruct (fixTargetUrl_settings o) as (Hs & Hh & Ht).
    set (o' := fixTargetUrl env o) in *. rewrite <- Hs, <- Hh, <- Ht.
    apply (restartSync_invariant env o' (target_url o')
             (Forall (runSettings (silent o') (ignoreHiddenFiles o') (trustSSL o')))).
    + intros tr rc j Htr. rewrite Forall_app. split; [done|]. apply pass_settings.
    + intros tr rc Htr. rewrite Forall_app. split; [done|]. by repeat constructor.
    + intros tr rc Htr. rewrite Forall_app. split; [done|]. by repeat constructor.
    + rewrite Forall_app. split; [|by repeat constructor].
      unfold resolveCredentials, credentialsFromPrompt.
      destruct (interactive o'); [|constructor].
      repeat match goal with
             | |- context [if ?b then _ else _] => destruct b
             | |- context [getline ?x] => destruct (getline x)
             end; by repeat constructor.
  - unfold mainFrom. rewrite Hacc. cbn [negb]. intros [= <-]. by repeat constructor.
Qed.

Lemma mainFrom_sameTargets (o : CmdOptions) (r : Run) :
  mainFrom env o = Some r →
  Forall (sameTargets (source_dir o) (target_url (fixTargetUrl env o))) (trace r).
Proof.
  destruct (env_accountCreated env) eqn:Hacc.
  - rewrite mainFrom_unfold by done. cbv zeta. intros Hr.
    rewrite <- (fixTargetUrl_source_dir env o).
    eapply run_sameTargets; [|exact Hr]. apply credentials_sameTargets.
  - unfold mainFrom. rewrite Hacc. cbn [negb]. intros [= <-]. by repeat constructor.
Qed.

(** After lines 295-312 the target URL does not start with http. *)
Lemma fixTargetUrl_not_http (o : CmdOptions) :
  QString.startsWith (target_url (fixTargetUrl env o)) "http" = false.
Proof.
  unfold fixTargetUrl.
  match goal with
  | |- context [if QString.startsWith (target_url ?x) "http" then _ else _] =>
      destruct (QString.startsWith (target_url x) "http") eqn:H; [reflexivity|exact H]
  end.
Qed.

End Settings.

(** X21: what the command line says reaches every pass.  No event of a
    run carries another log level than 1 when [-s] or [--silent] is among the
    options and 11 when not, another hidden-file policy than to ignore them
    unless [-h] is among the options, or another trust in the certificate
    than [--trust] gives.  When the command line parses and the account is
    created, every pass of the run, the restarted ones and the last, begins
    by creating the context and setting that log level and that policy, so
    each is set once a pass, and the one credentials object of the run is
    made once, before the first pass. *)
Theorem run_settings_from_command_line (env : Env) (prog : string)
    (middle : list string) (src url : string) (r : Run) :
  main env (prog :: middle ++ [src; url]) = Some r →
  Forall (runSettings (optionOccurs OptSilent middle)
                      (negb (optionOccurs OptHidden middle))
                      (optionOccurs OptTrust middle)) (trace r) ∧
  ∀ o,
    parseOptions (env_fileExists env) (prog :: middle ++ [src; url]) initialOptions
      = Parsed o →
    env_accountCreated env = true →
    ∃ (n : nat) (prompts ending : list Event) (u p : string),
      trace r =
        prompts ++ [EvCredentials u p (optionOccurs OptTrust middle)] ++
        restartedPasses
          (λ rc, passBegin env o (source_dir o) (target_url (fixTargetUrl env o))
                   (optionOccurs OptSilent middle)
                   (negb (optionOccurs OptHidden middle)) rc ++
                 passEnd env o (source_dir o) rc) 0 n ++
        passBegin env o (source_dir o) (target_url (fixTargetUrl env o))
          (optionOccurs OptSilent middle) (negb (optionOccurs OptHidden middle))
          (Z.of_nat n) ++
        ending ∧
      Forall (λ e, isPrompt e = true) prompts ∧
      lastPassEnding (passEnd env o (source_dir o) (Z.of_nat n)) (Z.of_nat n) ending ∧
      countEv isCsyncCreate (trace r) = S n ∧
      countEv isLogLevel (trace r) = S n ∧
      countEv isIgnoreHiddenFiles (trace r) = S n ∧
      countEv isCredentials (trace r) = 1%nat.
Proof.
  intros Hmain.
  assert (Hflags : ∀ o,
            parseOptions (env_fileExists env) (prog :: middle ++ [src; url]) initialOptions
              = Parsed o →
            silent o = optionOccurs OptSilent middle ∧
            ignoreHiddenFiles o = negb (optionOccurs OptHidden middle) ∧
            trustSSL o = optionOccurs OptTrust middle).
  { intros o Hp.
    destruct (parseOptions_parsed_loop _ _ _ _ Hp)
      as (prog' & middle' & src' & url' & Hargs & _ & _ & Hloop).
    injection Hargs as <- Hrest.
    assert (Hmid : middle = middle' ∧ [src; url] = [src'; url']).
    { apply app_inj_2; [done|exact Hrest]. }
    destruct Hmid as [<- _].
    pose proof (parseLoop_flag _ _ _ OptSilent eq_refl Hloop) as Hs.
    pose proof (parseLoop_flag _ _ _ OptHidden eq_refl Hloop) as Hh.
    pose proof (parseLoop_flag _ _ _ OptTrust eq_refl Hloop) as Ht.
    cbn in Hs, Hh, Ht. fold (optionOccurs OptSilent middle) in Hs.
    fold (optionOccurs OptHidden middle) in Hh. fold (optionOccurs OptTrust middle) in Ht.
    rewrite <- Hs, <- Hh, <- Ht, negb_involutive. done. }
  split.
  - revert Hmain. unfold main.
    destruct (parseOptions _ _ _) as [o| | | |] eqn:Hp;
      try (intros [= <-]; constructor).
    intros Hr. apply mainFrom_settings in Hr.
    destruct (Hflags o eq_refl) as (<- & <- & <-). exact Hr.
  - intros o Hp Hacc. rewrite (main_parsed env _ o Hp) in Hmain.
    destruct (Hflags o Hp) as (Hs & Hh & Ht).
    destruct (mainFrom_shape env o r Hacc Hmain)
      as (n & prompts & ending & u & p & Htrace & Hprompts & Hending).
    rewrite Hs, Hh, Ht in Htrace.
    assert (Hcount : ∀ q,
              (∀ d v l b, countEv q [EvCsyncCreate d v; EvLogLevel l;
                                     EvIgnoreHiddenFiles b] = 1%nat) →
              (∀ e, isCsyncCreate e = false → isLogLevel e = false →
                    isIgnoreHiddenFiles e = false → q e = false) →
              countEv q (trace r) = S n).
    { intros q H1 H2. by eapply (shape_count env q); [| |exact Htrace| |]. }
    exists n, prompts, ending, u, p.
    split; [exact Htrace|]. split; [exact Hprompts|]. split; [exact Hending|].
    split; [apply Hcount; [done|by intros []]|].
    split; [apply Hcount; [done|by intros []]|].
    split; [apply Hcount; [done|by intros []]|].
    revert Hmain. rewrite mainFrom_unfold by done. cbv zeta. intros Hr.
    destruct (run_counts env _ _ _ _ _ _ _ Hr) as (Hc & _).
    rewrite Hc, countEv_app. unfold resolveCredentials.
    by rewrite credentialsFromPrompt_trace.
Qed.

Lemma run_settings_from_command_line_witness :
  ∃ r, main (sampleEnv false)
         ("owncloudcmd" :: ["-s"; "--trust"] ++ ["/tmp/sync"; "http://example.com"]) = Some r ∧
       Forall (runSettings true true true) (trace r) ∧
       countEv isLogLevel (trace r) = countEv isCsyncCreate (trace r) ∧
       countEv isIgnoreHiddenFiles (trace r) = countEv isCsyncCreate (trace r) ∧
       countEv isCredentials (trace r) = 1%nat.
Proof.
  destruct (main_total (sampleEnv false)
              ("owncloudcmd" :: ["-s"; "--trust"] ++ ["/tmp/sync"; "http://example.com"]))
    as [r Hr].
  exists r. split; [exact Hr|].
  destruct (run_settings_from_command_line (sampleEnv false) "owncloudcmd"
              ["-s"; "--trust"] "/tmp/sync" "http://example.com" r Hr) as [Hall Hshape].
  split; [exact Hall|].
  edestruct Hshape as (n & prompts & ending & u & p & _ & _ & _ & H1 & H2 & H3 & H4).
  - vm_compute. reflexivity.
  - reflexivity.
  - rewrite H1, H2, H3. split; [done|]. split; [done|exact H4].
Defined.

(** X22: whatever the command line, [csync_create] is only ever called with
    a source directory that ends with a slash and exists, and with a URL that
    does not start with http. *)
Theorem csync_create_arguments (env : Env) (args : list string) (r : Run)
    (dir url : string) :
  main env args = Some r →
  EvCsyncCreate dir url ∈ trace r →
  QString.endsWith dir "/" = true ∧
  env_fileExists env dir = true ∧
  QString.startsWith url "http" = false.
Proof.
  unfold main.
  destruct (parseOptions _ _ _) as [o| | | |] eqn:Hp;
    try (intros [= <-] Hin; by apply elem_of_nil in Hin).
  intros Hr Hin. apply mainFrom_sameTargets in Hr.
  rewrite Forall_forall in Hr. destruct (Hr _ Hin) as [-> ->].
  destruct (parseOptions_parsed_loop _ _ _ _ Hp)
    as (prog & middle & src & u & _ & Hex & _ & Hloop).
  destruct (parseLoop_positional _ _ _ Hloop) as [Hs _]. cbn in Hs. rewrite Hs.
  split; [apply endsWith_withTrailingSlash|]. split; [exact Hex|].
  apply fixTargetUrl_not_http.
Qed.

Lemma csync_create_arguments_witness :
  QString.endsWith "/tmp/sync/" "/" = true ∧
  env_fileExists (sampleEnv false) "/tmp/sync/" = true ∧
  QString.startsWith "owncloud://example.com/remote.php/webdav/" "http" = false.
Proof.
  destruct (main_total (sampleEnv false) sampleArgs) as [r Hr].
  apply (csync_create_arguments (sampleEnv false) sampleArgs r _ _ Hr).
  revert Hr. vm_compute. intros [= <-].
  do 3 apply list_elem_of_further. apply list_elem_of_here.
Defined.

(** ** The terminal *)

(** X23: [queryPassword] leaves the terminal as it found it.  While the
    line is read, on a terminal the bits of [ECHO] are off in [c_lflag] and
    every other bit is as before; standard input that is no terminal is not
    touched at all.  The password is the next line of standard input, empty
    when there is none. *)
Theorem queryPassword_terminal (ECHO uninitialised : Z) (t : Terminal)
    (stdin : list string) (user : string) :
  let q := queryPassword ECHO uninitialised t stdin user in
  pq_after q = t ∧
  (isTerminal t = true →
   Z.land (c_lflag (pq_reading q)) ECHO = 0 ∧
   ∀ n, 0 ≤ n → Z.testbit ECHO n = false →
        Z.testbit (c_lflag (pq_reading q)) n = Z.testbit (c_lflag t) n) ∧
  (isTerminal t = false → pq_reading q = t) ∧
  pq_password q = default "" (stdin !! O) ∧
  pq_stdin q = drop 1 stdin.
Proof.
  cbv zeta. unfold queryPassword, EchoDisabler_ctor, EchoDisabler_dtor,
    tcsetattr, tcgetattr. rewrite getline_spec.
  destruct t as [[] flags]; cbn.
  - repeat split; try done.
    + apply Z.bits_inj'. intros n Hn.
      rewrite !Z.land_spec, Z.lnot_spec, Z.bits_0 by done.
      by destruct (Z.testbit ECHO n); rewrite ?andb_false_r.
    + intros n Hn Hbit. rewrite Z.land_spec, Z.lnot_spec, Hbit by done.
      by rewrite andb_true_r.
  - repeat split; done.
Qed.
